(** * rigel: a signature scanner for PHP sites

    A shallow embedding of [rigel.go].  Byte slices ([[]byte]) are lists of
    [ascii]; Go strings are [string]; the conversions [string(b)] and
    [[]byte(s)] are [string_of_list_ascii] and [list_ascii_of_string].
    Calls into the Go standard library ([regexp], [strconv], [strings],
    [path/filepath], [os], [net/http]) are modelled next to their callers. *)

From Stdlib Require Import ZArith NArith Ascii String List Lia DecimalString.
From stdpp Require Import base option list gmap sets strings.

Set Warnings "-register-all".
Open Scope Z_scope.

Definition bytes := list ascii.

Definition B (s : string) : bytes := list_ascii_of_string s.

(** Go functions returning [(T, error)]. *)
Inductive result (A E : Type) : Type :=
| Ok (a : A)
| Err (e : E).
Arguments Ok {A E} a.
Arguments Err {A E} e.

Definition code (c : ascii) : Z := Z.of_N (N_of_ascii c).
Definition byte_of (v : Z) : ascii := ascii_of_N (Z.to_N (v mod 256)).

Definition between (lo hi c : ascii) : bool :=
  (code lo <=? code c) && (code c <=? code hi).

Definition is_byte (a c : ascii) : bool := Ascii.eqb a c.

Definition either (p q : ascii -> bool) (c : ascii) : bool := p c || q c.

(** ** regexp: the fragment of RE2 syntax the normalizers are written in

    Go's matcher reads its input rune by rune, this one byte by byte.  The
    four expressions of [compileNormalizers] name ASCII bytes only, apart
    from the dot under [(?s)], which takes any rune, valid or not.  An ASCII
    byte is never part of the encoding of another rune, so every match
    starts and ends on a rune boundary and both readings find the same
    spans; in the replacement loop the width of the rune at [searchPos]
    then never exceeds the match, and is counted as one byte. *)

Module Regexp.

(** A parsed expression.  [Star greedy p] is [p*] ([greedy = true]) or
    [p*?] over a one-byte class, the only starred operands in the source. *)
Inductive re : Type :=
| Empty
| Class (p : ascii -> bool)
| Cat (r1 r2 : re)
| Alt (r1 r2 : re)
| Star (greedy : bool) (p : ascii -> bool).

(** [x?] prefers one [x]; [x{1,2}] is [xx?] and [x{1,3}] is [x(x(x)?)?],
    as regexp/syntax simplifies counted repetitions. *)
Definition Quest (r : re) : re := Alt r Empty.
Definition Rep12 (r : re) : re := Cat r (Quest r).
Definition Rep13 (r : re) : re := Cat r (Quest (Cat r (Quest r))).

Fixpoint star_greedy {A} (p : ascii -> bool) (s : bytes)
         (k : bytes -> option A) : option A :=
  match s with
  | c :: s' =>
      if p c then
        match star_greedy p s' k with
        | Some x => Some x
        | None => k s
        end
      else k s
  | [] => k s
  end.

Fixpoint star_lazy {A} (p : ascii -> bool) (s : bytes)
         (k : bytes -> option A) : option A :=
  match k s with
  | Some x => Some x
  | None =>
      match s with
      | c :: s' => if p c then star_lazy p s' k else None
      | [] => None
      end
  end.

(** The match a backtracking search finds first: alternatives are tried
    left to right, a greedy star tries more bytes first, a lazy star
    fewer.  [k] receives what is left of the input. *)
Fixpoint run {A} (r : re) (s : bytes) (k : bytes -> option A) : option A :=
  match r with
  | Empty => k s
  | Class p =>
      match s with
      | c :: s' => if p c then k s' else None
      | [] => None
      end
  | Cat r1 r2 => run r1 s (fun s' => run r2 s' k)
  | Alt r1 r2 =>
      match run r1 s k with
      | Some x => Some x
      | None => run r2 s k
      end
  | Star true p => star_greedy p s k
  | Star false p => star_lazy p s k
  end.

(** A match anchored at the start of [s]: the unmatched rest. *)
Definition matchAt (r : re) (s : bytes) : option bytes := run r s Some.

(** Leftmost match in [s], as offsets counted from [pos]. *)
Fixpoint search (r : re) (s : bytes) (pos : nat) : option (nat * nat) :=
  match matchAt r s with
  | Some rest => Some (pos, pos + (length s - length rest))%nat
  | None =>
      match s with
      | [] => None
      | _ :: s' => search r s' (S pos)
      end
  end.

(** [re.doExecute(..., pos, ...)]: the leftmost-first match of [src] that
    starts at or after [pos], as [(a[0], a[1])]. *)
Definition doExecute (r : re) (src : bytes) (pos : nat) : option (nat * nat) :=
  search r (drop pos src) pos.

Definition Match (r : re) (b : bytes) : bool :=
  match doExecute r b 0 with Some _ => true | None => false end.

Definition slice (src : bytes) (i j : nat) : bytes := take (j - i) (drop i src).

(** The loop of the method [replaceAll] of [Regexp].  Every iteration
    moves [searchPos] forward, so [length src + 2] iterations always reach
    the [break]. *)
Fixpoint replaceAll_loop (fuel : nat) (r : re) (repl : bytes -> bytes)
         (src : bytes) (lastMatchEnd searchPos : nat) (buf : bytes) : bytes :=
  match fuel with
  | O => buf ++ drop lastMatchEnd src
  | S fuel' =>
      if (searchPos <=? length src)%nat then
        match doExecute r src searchPos with
        | None => buf ++ drop lastMatchEnd src
        | Some (a0, a1) =>
            let buf := buf ++ slice src lastMatchEnd a0 in
            let buf :=
              if (lastMatchEnd <? a1)%nat || (a0 =? 0)%nat
              then buf ++ repl (slice src a0 a1) else buf in
            replaceAll_loop fuel' r repl src a1
                            (Nat.max a1 (S searchPos)) buf
        end
      else buf ++ drop lastMatchEnd src
  end.

Definition ReplaceAllFunc (r : re) (src : bytes) (repl : bytes -> bytes) : bytes :=
  replaceAll_loop (length src + 2) r repl src 0 0 [].

(** [ReplaceAll] with a replacement that holds no [$] reference. *)
Definition ReplaceAll (r : re) (src : bytes) (repl : bytes) : bytes :=
  ReplaceAllFunc r src (fun _ => repl).

End Regexp.

Import Regexp.

(** ** The four normalizer expressions *)

Definition quote_class : ascii -> bool := either (is_byte "'") (is_byte "034").

(** Perl class [\s] of RE2: tab, newline, form feed, carriage return, space. *)
Definition space_class (c : ascii) : bool :=
  is_byte "009" c || is_byte "010" c || is_byte "012" c || is_byte "013" c || is_byte " " c.

Definition any_class (c : ascii) : bool := true.

Definition digit_class : ascii -> bool := between "0" "9".

Definition hex_class (c : ascii) : bool :=
  between "a" "f" c || between "A" "F" c || between "0" "9" c.

(** [(?si:[\'"]\s*?\.\s*?[\'"])] *)
Definition re_concat : re :=
  Cat (Class quote_class)
      (Cat (Star false space_class)
           (Cat (Class (is_byte "."))
                (Cat (Star false space_class) (Class quote_class)))).

(** [(?si:/\*.*?\*/)]; under [s] the dot also matches a newline. *)
Definition re_comment : re :=
  Cat (Class (is_byte "/"))
      (Cat (Class (is_byte "*"))
           (Cat (Star false any_class)
                (Cat (Class (is_byte "*")) (Class (is_byte "/"))))).

(** [(?i:\\x([a-fA-F0-9]{1,2}))]; under [i] the letter x matches x and X. *)
Definition re_hex : re :=
  Cat (Class (is_byte "\"))
      (Cat (Class (either (is_byte "x") (is_byte "X"))) (Rep12 (Class hex_class))).

(** [\\([0-9]{1,3})] *)
Definition re_octal : re :=
  Cat (Class (is_byte "\")) (Rep13 (Class digit_class)).

Definition normalizers : list re := [re_concat; re_comment; re_hex; re_octal].

(** Each of the four expressions is well formed, so no [regexp.Compile]
    fails. *)
Definition compileNormalizers : result (list re) string := Ok normalizers.

(** ** unicode/utf8 and strconv, as far as [Unquote] of a rune literal goes *)

Module Utf8.

Definition RuneError : Z := 0xFFFD.
Definition RuneSelf : Z := 0x80.
Definition MaxRune : Z := 0x10FFFF.

Definition inRange (lo hi : Z) (c : ascii) : bool :=
  (lo <=? code c) && (code c <=? hi).

Definition low6 (c : ascii) : Z := Z.land (code c) 0x3F.

(** [DecodeRuneInString]: the first rune of [s] and its width; an invalid
    encoding decodes to [(RuneError, 1)], the empty input to
    [(RuneError, 0)]. *)
Definition DecodeRune (s : bytes) : Z * nat :=
  match s with
  | [] => (RuneError, 0%nat)
  | s0 :: t =>
      let b0 := code s0 in
      if b0 <? RuneSelf then (b0, 1%nat)
      else if (b0 <? 0xC2) || (0xF4 <? b0) then (RuneError, 1%nat)
      else
        let sz := if b0 <? 0xE0 then 2%nat else if b0 <? 0xF0 then 3%nat else 4%nat in
        let lo := if b0 =? 0xE0 then 0xA0 else if b0 =? 0xF0 then 0x90 else 0x80 in
        let hi := if b0 =? 0xED then 0x9F else if b0 =? 0xF4 then 0x8F else 0xBF in
        if (length s <? sz)%nat then (RuneError, 1%nat)
        else
          match t with
          | s1 :: t1 =>
              if negb (inRange lo hi s1) then (RuneError, 1%nat)
              else if (sz <=? 2)%nat then
                (Z.lor (Z.shiftl (Z.land b0 0x1F) 6) (low6 s1), 2%nat)
              else
                match t1 with
                | s2 :: t2 =>
                    if negb (inRange 0x80 0xBF s2) then (RuneError, 1%nat)
                    else if (sz <=? 3)%nat then
                      (Z.lor (Z.shiftl (Z.land b0 0x0F) 12)
                             (Z.lor (Z.shiftl (low6 s1) 6) (low6 s2)), 3%nat)
                    else
                      match t2 with
                      | s3 :: _ =>
                          if negb (inRange 0x80 0xBF s3) then (RuneError, 1%nat)
                          else
                            (Z.lor (Z.shiftl (Z.land b0 0x07) 18)
                               (Z.lor (Z.shiftl (low6 s1) 12)
                                  (Z.lor (Z.shiftl (low6 s2) 6) (low6 s3))), 4%nat)
                      | [] => (RuneError, 1%nat)
                      end
                | [] => (RuneError, 1%nat)
                end
          | [] => (RuneError, 1%nat)
          end
  end.

Definition ValidRune (r : Z) : bool :=
  ((0 <=? r) && (r <? 0xD800)) || ((0xDFFF <? r) && (r <=? MaxRune)).

Definition tx (v : Z) : ascii := byte_of (Z.lor 0x80 (Z.land v 0x3F)).

(** [AppendRune] to an empty buffer. *)
Definition EncodeRune (r : Z) : bytes :=
  if (0 <=? r) && (r <=? 0x7F) then [byte_of r]
  else if (0 <=? r) && (r <=? 0x7FF) then
    [byte_of (Z.lor 0xC0 (Z.shiftr r 6)); tx r]
  else
    let r := if ValidRune r then r else RuneError in
    if r <=? 0xFFFF then
      [byte_of (Z.lor 0xE0 (Z.shiftr r 12)); tx (Z.shiftr r 6); tx r]
    else
      [byte_of (Z.lor 0xF0 (Z.shiftr r 18)); tx (Z.shiftr r 12);
       tx (Z.shiftr r 6); tx r].

End Utf8.

Module Strconv.

Definition ErrSyntax : string := "invalid syntax".

(** A [rune] is an [int32]. *)
Definition wrap32 (z : Z) : Z := (z + 2 ^ 31) mod 2 ^ 32 - 2 ^ 31.

Definition unhex (c : ascii) : option Z :=
  if between "0" "9" c then Some (code c - code "0")
  else if between "a" "f" c then Some (code c - code "a" + 10)
  else if between "A" "F" c then Some (code c - code "A" + 10)
  else None.

(** [n] hexadecimal digits folded as [v = v<<4 | x]. *)
Fixpoint hexDigits (n : nat) (s : bytes) (v : Z) : option (Z * bytes) :=
  match n with
  | O => Some (v, s)
  | S n' =>
      match s with
      | [] => None
      | c :: s' =>
          match unhex c with
          | None => None
          | Some x => hexDigits n' s' (wrap32 (Z.lor (Z.shiftl v 4) x))
          end
      end
  end.

(** Two more octal digits folded as [v = (v<<3) | x]. *)
Fixpoint octDigits (n : nat) (s : bytes) (v : Z) : option (Z * bytes) :=
  match n with
  | O => Some (v, s)
  | S n' =>
      match s with
      | [] => None
      | c :: s' =>
          let x := code c - code "0" in
          if (x <? 0) || (7 <? x) then None
          else octDigits n' s' (Z.lor (Z.shiftl v 3) x)
      end
  end.

(** [UnquoteChar(s, quote)]: value, multibyte flag and tail. *)
Definition UnquoteChar (s : bytes) (quote : ascii)
  : result (Z * bool * bytes) string :=
  match s with
  | [] => Err ErrSyntax
  | c :: s1 =>
      if is_byte c quote && (is_byte quote "'" || is_byte quote "034") then
        Err ErrSyntax
      else if Utf8.RuneSelf <=? code c then
        let '(r, size) := Utf8.DecodeRune s in Ok (r, true, drop size s)
      else if negb (is_byte c "\") then Ok (code c, false, s1)
      else
        match s1 with
        | [] => Err ErrSyntax
        | e :: s2 =>
            let simple v := Ok (v, false, s2) in
            if is_byte e "a" then simple 7
            else if is_byte e "b" then simple 8
            else if is_byte e "f" then simple 12
            else if is_byte e "n" then simple 10
            else if is_byte e "r" then simple 13
            else if is_byte e "t" then simple 9
            else if is_byte e "v" then simple 11
            else if is_byte e "x" || is_byte e "u" || is_byte e "U" then
              let n := if is_byte e "x" then 2%nat
                       else if is_byte e "u" then 4%nat else 8%nat in
              match hexDigits n s2 0 with
              | None => Err ErrSyntax
              | Some (v, tail) =>
                  if is_byte e "x" then Ok (v, false, tail)
                  else if negb (Utf8.ValidRune v) then Err ErrSyntax
                  else Ok (v, true, tail)
              end
            else if between "0" "7" e then
              match octDigits 2 s2 (code e - code "0") with
              | None => Err ErrSyntax
              | Some (v, tail) =>
                  if 255 <? v then Err ErrSyntax else Ok (v, false, tail)
              end
            else if is_byte e "\" then simple (code "\")
            else if is_byte e "'" || is_byte e "034" then
              if negb (is_byte e quote) then Err ErrSyntax else simple (code e)
            else Err ErrSyntax
        end
  end.

Definition contains (s : bytes) (c : ascii) : bool := existsb (is_byte c) s.

Fixpoint upTo (q : ascii) (s : bytes) : bytes :=
  match s with
  | [] => []
  | c :: s' => if is_byte c q then [] else c :: upTo q s'
  end.

(** [Unquote] applied to the rune literal [' body ']: the string
    [unquoteStr] builds always opens and closes with a single quote. *)
Definition UnquoteRune (body : bytes) : result bytes string :=
  let q : ascii := "'"%char in
  let inp := body ++ [q] in
  let lit := upTo q inp in
  let '(r, n) := Utf8.DecodeRune lit in
  if negb (contains lit "\") && negb (contains lit "010")
     && (n =? length lit)%nat && (negb (r =? Utf8.RuneError) || negb (n =? 1)%nat)
  then
    match drop (length lit + 1) inp with
    | [] => Ok lit
    | _ => Err ErrSyntax
    end
  else
    match inp with
    | [] => Err ErrSyntax
    | c :: rest =>
        if is_byte c q then
          match rest with [] => Ok [] | _ => Err ErrSyntax end
        else
          match UnquoteChar inp q with
          | Err e => Err ErrSyntax
          | Ok (r, multibyte, rem) =>
              if is_byte c "010" then Err ErrSyntax
              else
                let buf := if (r <? Utf8.RuneSelf) || negb multibyte
                           then [byte_of r] else Utf8.EncodeRune r in
                match rem with
                | c' :: rem' =>
                    if is_byte c' q then
                      match rem' with [] => Ok buf | _ => Err ErrSyntax end
                    else Err ErrSyntax
                | [] => Err ErrSyntax
                end
          end
    end.

End Strconv.

(** ** strings and path/filepath *)

Module Strings.

(** [unicode.IsSpace]. *)
Definition IsSpace (r : Z) : bool :=
  if r <=? 0xFF then
    ((9 <=? r) && (r <=? 13)) || (r =? 32) || (r =? 0x85) || (r =? 0xA0)
  else
    (r =? 0x1680) || ((0x2000 <=? r) && (r <=? 0x200A)) || (r =? 0x2028)
    || (r =? 0x2029) || (r =? 0x202F) || (r =? 0x205F) || (r =? 0x3000).

Definition RuneStart (c : ascii) : bool :=
  negb (Z.land (code c) 0xC0 =? 0x80).

Definition at_index (s : bytes) (i : Z) : ascii :=
  nth (Z.to_nat i) s "000"%char.

(** The backward scan of [DecodeLastRuneInString]:
    [for start--; start >= lim; start-- { if RuneStart(s[start]) { break } }]. *)
Fixpoint scanStart (steps : nat) (s : bytes) (start lim : Z) : Z :=
  match steps with
  | O => start
  | S k =>
      if start <? lim then start
      else if RuneStart (at_index s start) then start
      else scanStart k s (start - 1) lim
  end.

Definition DecodeLastRune (s : bytes) : Z * nat :=
  let e := Z.of_nat (length s) in
  if e =? 0 then (Utf8.RuneError, 0%nat)
  else
    let r := code (at_index s (e - 1)) in
    if r <? Utf8.RuneSelf then (r, 1%nat)
    else
      let lim := Z.max 0 (e - 4) in
      let start := Z.max 0 (scanStart 5 s (e - 2) lim) in
      let '(r, size) := Utf8.DecodeRune (drop (Z.to_nat start) s) in
      if negb (start + Z.of_nat size =? e) then (Utf8.RuneError, 1%nat)
      else (r, size).

Fixpoint trimLeft (fuel : nat) (s : bytes) : bytes :=
  match fuel with
  | O => s
  | S k =>
      let '(r, size) := Utf8.DecodeRune s in
      if (0 <? size)%nat && IsSpace r then trimLeft k (drop size s) else s
  end.

Fixpoint trimRight (fuel : nat) (s : bytes) : bytes :=
  match fuel with
  | O => s
  | S k =>
      let '(r, size) := DecodeLastRune s in
      if (0 <? size)%nat && IsSpace r
      then trimRight k (take (length s - size) s) else s
  end.

(** [TrimSpace]: all leading and trailing white space runes removed. *)
Definition TrimSpace (s : string) : string :=
  let b := list_ascii_of_string s in
  let l := trimLeft (length b) b in
  string_of_list_ascii (trimRight (length l) l).

(** [Split(s, sep)] for a one-byte separator. *)
Fixpoint Split (s : string) (sep : ascii) : list string :=
  match s with
  | EmptyString => [EmptyString]
  | String c s' =>
      if Ascii.eqb c sep then EmptyString :: Split s' sep
      else
        match Split s' sep with
        | hd :: tl => String c hd :: tl
        | [] => [String c EmptyString]
        end
  end.

Definition HasPrefix (s p : string) : bool := String.prefix p s.

Definition HasSuffix (s p : string) : bool :=
  (String.length p <=? String.length s)%nat
  && String.eqb (String.substring (String.length s - String.length p)
                                  (String.length p) s) p.

(** [filepath.Ext]: the suffix from the last dot of the last path element,
    with [/] the path separator. *)
Fixpoint ext_from (rev_path : bytes) (acc : bytes) : bytes :=
  match rev_path with
  | [] => []
  | c :: rest =>
      if is_byte c "/" then []
      else if is_byte c "." then c :: acc
      else ext_from rest (c :: acc)
  end.

Definition Ext (path : string) : string :=
  string_of_list_ascii (ext_from (rev (list_ascii_of_string path)) []).

End Strings.

(** [%d] of fmt. *)
Definition itoa (z : Z) : string := NilZero.string_of_int (Z.to_int z).

Definition nl : string := String "010" EmptyString.

(** ** rigel.go *)

Definition READER_BLOCKSIZE : Z := 512 * 1024.
Definition MAXFILESIZE : Z := 2 * 1024 * 1024.

(** What goes wrong, as the program builds it: an error of a library call
    is kept by its message, an error made with [fmt.Errorf] by the values
    formatted into it. *)
Inductive error : Type :=
| LibError (msg : string)
| FetchError (dbfile : string) (cause : string)
| NoSignatures
| CompileError (id : Z) (pattern : string) (cause : string)
| FlagAlreadySet.

(** ** FileExtensions *)

Definition FileExtensions := gset string.

Definition first_is_dot (s : string) : bool :=
  match s with
  | String c _ => Ascii.eqb c "."
  | EmptyString => false
  end.

Definition add_ext (li : FileExtensions) (s : string) : FileExtensions :=
  let s := Strings.TrimSpace s in
  if (String.length s =? 0)%nat then li
  else if first_is_dot s then {[ s ]} ∪ li
  else {[ ("." +:+ s)%string ]} ∪ li.

(** [func (li *FileExtensions) Set(value string) error]: the map after the
    call and the error returned. *)
Definition FileExtensions_Set (li : FileExtensions) (value : string)
  : FileExtensions * option error :=
  if decide (0 < size li)%nat then (li, Some FlagAlreadySet)
  else (foldl add_ext li (Strings.Split value ","), None).

Definition FileExtensions_String (li : FileExtensions) : string :=
  itoa (Z.of_nat (size li)).

Definition unquoteStr (s : bytes) : bytes :=
  match Strconv.UnquoteRune s with
  | Err _ => []
  | Ok u => u
  end.

(** ** Signatures, files and the trace of a scan *)

(** One [<signature>] element as [encoding/xml] decodes it: attributes
    [id], [title], [sever] and the character data. *)
Record entry : Type := Entry {
  e_id : Z;
  e_title : string;
  e_sever : string;
  e_chardata : string
}.

(** [Regexp] is a pointer in the source: [None] is [nil]. *)
Record Signature (R : Type) : Type := mkSignature {
  Id : Z;
  Title : string;
  Type_ : string;
  Signature_ : string;
  Regexp : option R
}.
Arguments mkSignature {R} _ _ _ _ _.
Arguments Id {R} _.
Arguments Title {R} _.
Arguments Type_ {R} _.
Arguments Signature_ {R} _.
Arguments Regexp {R} _.

Definition Database (R : Type) : Type := list (Signature R).

(** An opened file, by what its calls answer: [Read] and [ReadAll] deliver
    [f_content] unless the system reports [f_read_err] or [f_readall_err],
    [Seek] fails with [f_seek_err], [Stat] answers the size [f_stat]. *)
Record file : Type := File {
  f_content : bytes;
  f_read_err : option string;
  f_seek_err : option string;
  f_stat : result Z string;
  f_readall_err : option string
}.

(** A regular file with no failing call. *)
Definition plain_file (c : bytes) : file :=
  File c None None (Ok (Z.of_nat (length c))) None.

(** [n, err := f.Read(head)] with [len(head) = 512]: the bytes read, or the
    error; at the end of the file [Read] answers [0, io.EOF]. *)
Definition Read512 (f : file) : result bytes string :=
  match f_read_err f with
  | Some e => Err e
  | None =>
      match f_content f with
      | [] => Err "EOF"%string
      | c => Ok (take 512 c)
      end
  end.

(** What [checkFile] does, in program order: reads of the file, the
    content type detection, tests of a signature (by its id), lines written
    with [log.Printf] (without the logger's time header) and text written to
    standard output; [EvPanic] is a run-time panic. *)
Inductive event : Type :=
| EvRead (n : nat)
| EvDetect (mimeType : string)
| EvSeek
| EvReadAll
| EvMatch (id : Z)
| EvLog (line : string)
| EvPrint (text : string)
| EvPanic.

Definition warning (e path : string) : string :=
  ("[warning] " +:+ e +:+ ": " +:+ path)%string.

Definition size_warning (path : string) : string :=
  ("[warning] file size more than " +:+ itoa (Z.shiftr MAXFILESIZE (10 * 2))
   +:+ "M: " +:+ path)%string.

Definition matched (title : string) (id : Z) (path : string) : string :=
  ("Matched: " +:+ title +:+ " (signature id = " +:+ itoa id +:+ "): "
   +:+ path +:+ nl)%string.

(** The two normalization loops of [checkFile], over [nr[:2]] and [nr[2:]]. *)
Definition normalize (nr : list re) (c : bytes) : bytes :=
  let c := foldl (fun c r => ReplaceAll r c []) c (take 2 nr) in
  foldl (fun c r => ReplaceAllFunc r c unquoteStr) c (drop 2 nr).

(** ** path/filepath.Walk *)

(** A directory tree as [Walk] meets it.  Every node carries the path
    [Walk] hands to the callback.  [NBad] is an entry whose [Lstat] fails,
    [readErr] the error of listing a directory. *)
Inductive node : Type :=
| NFile (path : string)
| NDir (path : string) (readErr : option string) (children : list node)
| NBad (path : string) (err : string).

(** What a [WalkFunc] returns: [nil], [SkipDir], [SkipAll] or another error. *)
Inductive walkRet : Type :=
| Continue
| SkipDir
| SkipAll
| Fail (e : string).

(** What the walking goroutine does: log lines (without the time header),
    sends on [cPaths] and its closing. *)
Inductive wevent : Type :=
| WLog (line : string)
| WSend (path : string)
| WClose
| WPanic.

Section Walk.

Variable fn : string -> option bool -> option string -> list wevent * walkRet.

(** In the loop over the names of a directory: does the error returned
    for child [c] end the loop? *)
Definition stops (c : node) (err : walkRet) : bool :=
  match err with
  | Continue => false
  | SkipDir => match c with NFile _ => true | _ => false end
  | _ => true
  end.

Fixpoint walkNode (n : node) : list wevent * walkRet :=
  match n with
  | NFile p => fn p (Some false) None
  | NBad p e => fn p None (Some e)
  | NDir p rerr children =>
      let '(ev1, err1) := fn p (Some true) rerr in
      match rerr, err1 with
      | None, Continue =>
          let fix names (l : list node) : list wevent * walkRet :=
            match l with
            | [] => ([], Continue)
            | c :: rest =>
                let '(ev, err) := walkNode c in
                if stops c err then (ev, err)
                else let '(ev', err') := names rest in (ev ++ ev', err')
            end in
          let '(ev2, r) := names children in (ev1 ++ ev2, r)
      | _, _ => (ev1, err1)
      end
  end.

(** [filepath.Walk(root, fn)]: [SkipDir] and [SkipAll] at the top are no
    error. *)
Definition Walk (root : node) : list wevent * option string :=
  let '(evs, err) := walkNode root in
  (evs, match err with Fail e => Some e | _ => None end).

End Walk.

Section Rigel.

(** The compiled form of a signature and the two calls made on it. *)
Context {R : Type}.
Variable regexp_Compile : string -> result R string.
Variable regexp_Match : R -> bytes -> bool.

Variable DetectContentType : bytes -> string.

(** The file system and the network. *)
Variable os_Open : string -> result file string.
Variable http_Get : string -> result bytes string.
Variable xml_Decode : bytes -> result (list entry) string.

(** The package variables set from the command line. *)
Variable DBFILE : string.
Variable FFILTER : FileExtensions.
Variable SKIPSOFT : bool.

(** [for _, s := range signatures { if s.Regexp.Match(c) { ...; return } }] *)
Fixpoint matchLoop (path : string) (c : bytes) (signatures : list (Signature R))
  : list event :=
  match signatures with
  | [] => []
  | s :: rest =>
      match Regexp s with
      | None => [EvPanic]
      | Some r =>
          EvMatch (Id s) ::
          (if regexp_Match r c
           then [EvPrint (matched (Title s) (Id s) path)]
           else matchLoop path c rest)
      end
  end.

(** From [f.Stat()] to the end of [checkFile]. *)
Definition checkSize (path : string) (f : file)
           (signatures : list (Signature R)) (nr : list re) : list event :=
  match f_stat f with
  | Err e => [EvLog (warning e path)]
  | Ok sz =>
      if MAXFILESIZE <? sz then [EvLog (size_warning path)]
      else
        EvReadAll ::
        match f_readall_err f with
        | Some e => [EvLog (warning e path)]
        | None =>
            if (length nr <? 2)%nat then [EvPanic]
            else matchLoop path (normalize nr (f_content f)) signatures
        end
  end.

(** From [f.Seek(0, os.SEEK_SET)] on. *)
Definition rewind (path : string) (f : file)
           (signatures : list (Signature R)) (nr : list re) : list event :=
  EvSeek ::
  match f_seek_err f with
  | Some e => [EvLog (warning e path)]
  | None => checkSize path f signatures nr
  end.

Definition checkFile (path : string) (signatures : list (Signature R))
           (nr : list re) : list event :=
  match os_Open path with
  | Err e => [EvLog (warning e path)]
  | Ok f =>
      if (size FFILTER =? 0)%nat then
        match Read512 f with
        | Ok head =>
            let mimeType := DetectContentType head in
            EvRead (length head) :: EvDetect mimeType ::
            (if Strings.HasPrefix mimeType "text/" then rewind path f signatures nr
             else if Strings.HasSuffix mimeType "/xml" then rewind path f signatures nr
             else [])
        | Err _ => EvRead 0 :: rewind path f signatures nr
        end
      else checkSize path f signatures nr
  end.

(** [for p := range cPaths { checkFile(p, sigs, nr) }] *)
Definition worker (sigs : list (Signature R)) (nr : list re)
           (cPaths : list string) : list event :=
  concat (map (fun p => checkFile p sigs nr) cPaths).

(** *** readDatabase *)

Definition decoded (e : entry) : Signature R :=
  mkSignature (e_id e) (e_title e) (e_sever e) (e_chardata e) None.

Definition set_Regexp (r : R) (s : Signature R) : Signature R :=
  mkSignature (Id s) (Title s) (Type_ s) (Signature_ s) (Some r).

(** [for i, sig := range db.Signatures]: [pending] is what the range has
    still to visit, [i] the index of its head, [sigs] the slice, written
    at [i] when the pattern compiles. *)
Fixpoint compileFrom (i : nat) (pending sigs : list (Signature R))
  : result (list (Signature R)) error :=
  match pending with
  | [] => Ok sigs
  | sig :: rest =>
      match regexp_Compile (Signature_ sig) with
      | Err e => Err (CompileError (Id sig) (Signature_ sig) e)
      | Ok r => compileFrom (S i) rest (alter (set_Regexp r) i sigs)
      end
  end.

Definition critical (s : Signature R) : bool := String.eqb (Type_ s) "c".

(** The second loop under [if SKIPSOFT]; the first only counts, to size
    the new slice. *)
Definition critSignatures (sigs : list (Signature R)) : list (Signature R) :=
  foldl (fun acc sig => if critical sig then acc ++ [sig] else acc) [] sigs.

Definition loadDocument (path : string) : result (list entry) error :=
  if Strings.HasPrefix path "http://" || Strings.HasPrefix path "https://" then
    match http_Get DBFILE with
    | Err e => Err (FetchError DBFILE e)
    | Ok body =>
        match xml_Decode body with
        | Err e => Err (LibError e)
        | Ok es => Ok es
        end
    end
  else
    match os_Open path with
    | Err e => Err (LibError e)
    | Ok f =>
        match xml_Decode (f_content f) with
        | Err e => Err (LibError e)
        | Ok es => Ok es
        end
    end.

Definition readDatabase (path : string) : result (Database R) error :=
  match loadDocument path with
  | Err e => Err e
  | Ok es =>
      let sigs := map decoded es in
      if (length sigs =? 0)%nat then Err NoSignatures
      else
        match compileFrom 0 sigs sigs with
        | Err e => Err e
        | Ok sigs =>
            if SKIPSOFT then Ok (critSignatures sigs) else Ok sigs
        end
  end.

(** *** walk *)

(** [walkFn] of [walk]: [info] is [None] for a nil [FileInfo], else
    whether it is a directory. *)
Definition walkFn (path : string) (info : option bool) (err : option string)
  : list wevent * walkRet :=
  match err with
  | Some e => ([WLog ("[fatal] walk error: " +:+ e)%string], Continue)
  | None =>
      match info with
      | None => ([WPanic], Continue)
      | Some true => ([], Continue)
      | Some false =>
          if negb (bool_decide (Strings.Ext path ∈ FFILTER))
             && (0 <? size FFILTER)%nat
          then ([], Continue)
          else ([WSend path], Continue)
      end
  end.

Variable os_Tree : string -> node.

(** The goroutine started by [walk]: [filepath.Walk], the report of its
    error, and the deferred [close(cPaths)]. *)
Definition walk (rootdir : string) : list wevent :=
  let '(evs, err) := Walk walkFn (os_Tree rootdir) in
  evs
  ++ match err with
     | Some e => [WLog ("[fatal] walk error: " +:+ e)%string]
     | None => []
     end
  ++ [WClose].

(** *** main *)

Variable MAXPROCS : Z.
Variable ROOTDIR : string.

(** What [main] comes to once the flags are parsed: a [log.Fatalln], which
    ends the process, or the start of the walk and of the workers, with
    the signatures and normalizers every worker is given. *)
Inductive started : Type :=
| FatalNormalizers (e : string)
| FatalDatabase (e : error)
| Started (signatures : list (Signature R)) (nr : list re) (workers : Z)
          (producer : list wevent).

Definition main : started :=
  let MAXPROCS := if MAXPROCS <? 1 then 1 else MAXPROCS in
  match compileNormalizers with
  | Err e => FatalNormalizers e
  | Ok normalizers =>
      match readDatabase DBFILE with
      | Err e => FatalDatabase e
      | Ok db => Started db normalizers MAXPROCS (walk ROOTDIR)
      end
  end.

End Rigel.

(** ** A small instance of the library and of the file system, for examples *)

Module Sample.

Definition plain_byte (c : ascii) : bool :=
  between "a" "z" c || between "A" "Z" c || between "0" "9" c
  || is_byte " " c || is_byte "_" c.

Fixpoint literal (s : bytes) : re :=
  match s with
  | [] => Empty
  | c :: s' => Cat (Class (is_byte c)) (literal s')
  end.

(** [regexp.Compile] on the patterns of the examples: letters, digits,
    spaces and underscores match themselves; a lone opening parenthesis
    is a syntax error; nothing else is covered. *)
Definition Compile (pattern : string) : result re string :=
  if String.eqb pattern "(" then
    Err "error parsing regexp: missing closing ): `(`"%string
  else if forallb plain_byte (B pattern) then Ok (literal (B pattern))
  else Err "error parsing regexp: not covered by this instance"%string.

Definition jpeg_magic : bytes := map byte_of [0xFF; 0xD8; 0xFF].

Definition binary_byte (c : ascii) : bool :=
  (code c <=? 0x08) || (code c =? 0x0B)
  || ((0x0E <=? code c) && (code c <=? 0x1A))
  || ((0x1C <=? code c) && (code c <=? 0x1F)).

Fixpoint starts_with (p s : bytes) : bool :=
  match p, s with
  | [], _ => true
  | a :: p', b :: s' => Ascii.eqb a b && starts_with p' s'
  | _ :: _, [] => false
  end.

(** Three rows of [http.DetectContentType]: the JPEG signature, and the
    two closing rules (binary data, plain text). *)
Definition DetectContentType (data : bytes) : string :=
  let data := take 512 data in
  if starts_with jpeg_magic data then "image/jpeg"%string
  else if existsb binary_byte data then "application/octet-stream"%string
  else "text/plain; charset=utf-8"%string.

Fixpoint open_in (fs : list (string * file)) (path : string)
  : result file string :=
  match fs with
  | [] => Err ("open " +:+ path +:+ ": no such file or directory")%string
  | (p, f) :: fs' => if String.eqb p path then Ok f else open_in fs' path
  end.

Definition no_network (url : string) : result bytes string :=
  Err "dial tcp: network is unreachable"%string.

(** A decoder for a document whose entries are [es]. *)
Definition decodes_to (es : list entry) (doc : bytes) : result (list entry) string :=
  Ok es.

(** A JPEG image of 2 MiB and one byte. *)
Definition big_jpeg : file :=
  plain_file (jpeg_magic ++ repeat "000"%char (Z.to_nat (MAXFILESIZE + 1 - 3))).

(** A text file of [n] bytes. *)
Definition text_file (n : Z) : file := plain_file (repeat "a"%char (Z.to_nat n)).

Definition sig (id : Z) (title sever pattern : string) : Signature re :=
  mkSignature id title sever pattern
              (match Compile pattern with Ok r => Some r | Err _ => None end).

Definition sigs : list (Signature re) :=
  [sig 3 "Dropper" "s" "base64_decode"; sig 7 "WebShell" "c" "eval"].

Definition shell : bytes := B "<?php 'ev'.'al'($_POST['x']); ?>".

Definition site : list (string * file) :=
  [("shell.php"%string, plain_file shell);
   ("empty.php"%string, plain_file []);
   ("photo.jpg"%string, big_jpeg);
   ("big.txt"%string, text_file (MAXFILESIZE + 1));
   ("full.txt"%string, text_file MAXFILESIZE);
   ("malware_db.xml"%string, plain_file (B "<database/>"))].

Definition three : list entry :=
  [Entry 1 "Dropper" "s" "base64_decode"; Entry 2 "WebShell" "c" "eval";
   Entry 3 "Mailer" "c" "mail"].

Definition broken : list entry :=
  [Entry 1 "WebShell" "c" "eval"; Entry 2 "Unbalanced" "c" "(";
   Entry 3 "Mailer" "c" "mail"].

(** A directory opened as a file: [Read] and [ReadAll] fail, [Stat]
    answers the size of the directory entry. *)
Definition adir : file :=
  File [] (Some "read adir: is a directory"%string) None (Ok 4096)
       (Some "read adir: is a directory"%string).

(** A site with a directory that cannot be listed. *)
Definition www : node :=
  NDir "www" None
       [NDir "www/cache" (Some "open www/cache: permission denied"%string) [];
        NFile "www/index.php";
        NDir "www/lib" None [NFile "www/lib/db.php"]].

End Sample.

(** ** Vocabulary of the properties *)

(** An expression none of whose matches is empty. *)
Definition consuming (r : re) : Prop :=
  forall s rest, matchAt r s = Some rest -> (length rest < length s)%nat.

(** [t] does not go on with a byte of class [p]. *)
Definition no_more (p : ascii -> bool) (t : bytes) : Prop :=
  match t with
  | c :: _ => p c = false
  | [] => True
  end.

Definition hexval (c : ascii) : Z := default 0 (Strconv.unhex c).
Definition octval (c : ascii) : Z := code c - code "0".

(** A three digit span is an octal escape when its digits are octal and
    its value fits a byte. *)
Definition octal_ok (d1 d2 d3 : ascii) : bool :=
  (octval d1 <=? 3) && (octval d2 <=? 7) && (octval d3 <=? 7).

Definition x_or_X : ascii -> bool := either (is_byte "x") (is_byte "X").

Definition digits : bytes := B "0123456789".
Definition hexdigits : bytes := B "0123456789abcdefABCDEF".

Definition same (a b : bytes) : bool := bool_decide (a = b).

Definition dotted (li : FileExtensions) : Prop :=
  forall e, e ∈ li -> first_is_dot e = true.

(** An entry of the [--filter] list as it is stored. *)
Definition with_dot (s : string) : string :=
  if first_is_dot s then s else ("." +:+ s)%string.

Section Vocabulary.

Context {R : Type}.
Variable regexp_Compile : string -> result R string.

(** The signature of an entry once its pattern is compiled to [r]. *)
Definition compiled_as (e : entry) (s : Signature R) : Prop :=
  exists r, regexp_Compile (e_chardata e) = Ok r
            /\ s = mkSignature (e_id e) (e_title e) (e_sever e) (e_chardata e) (Some r).

Definition compiles (e : entry) : Prop :=
  exists r, regexp_Compile (e_chardata e) = Ok r.

End Vocabulary.

(** What a trace shows: the texts printed, the ids of the signatures
    tested, the lines logged, and whether the whole content was read. *)
Definition printed (t : list event) : list string :=
  omap (fun e => match e with EvPrint x => Some x | _ => None end) t.

Definition tested (t : list event) : list Z :=
  omap (fun e => match e with EvMatch i => Some i | _ => None end) t.

Definition logged (t : list event) : list string :=
  omap (fun e => match e with EvLog x => Some x | _ => None end) t.

Definition read_all (t : list event) : bool :=
  existsb (fun e => match e with EvReadAll => true | _ => false end) t.

(** A trace with no signature test and no output. *)
Definition silent (t : list event) : Prop := printed t = [] /\ tested t = [].

Definition closes (t : list wevent) : bool :=
  existsb (fun e => match e with WClose => true | _ => false end) t.

(** The calls of the callback in a walk that nothing stops: every node
    once, a directory before its entries, the entries of a directory that
    cannot be listed left out. *)
Fixpoint visits (n : node) : list (string * option bool * option string) :=
  match n with
  | NFile p => [(p, Some false, None)]
  | NBad p e => [(p, None, Some e)]
  | NDir p rerr children =>
      (p, Some true, rerr)
      :: match rerr with
         | Some _ => []
         | None => concat (map visits children)
         end
  end.

(** The tests of the signatures [l], none of which matches. *)
Definition tests {R} (l : list (Signature R)) : list event :=
  map (fun s => EvMatch (Id s)) l.

Section ScanVocabulary.

Context {R : Type}.
Variable regexp_Match : R -> bytes -> bool.
Variable DetectContentType : bytes -> string.
Variable FFILTER : FileExtensions.

(** Signature [s] is compiled and does not match [c]. *)
Definition no_match (c : bytes) (s : Signature R) : Prop :=
  exists r, Regexp s = Some r /\ regexp_Match r c = false.

Definition text_or_xml (mimeType : string) : bool :=
  Strings.HasPrefix mimeType "text/" || Strings.HasSuffix mimeType "/xml".

(** With no filter set, the head of [f] was read and its content type is
    neither [text/...] nor [.../xml]: [checkFile] returns at once. *)
Definition sniffed_out (f : file) : bool :=
  (size FFILTER =? 0)%nat
  && match Read512 f with
     | Ok head => negb (text_or_xml (DetectContentType head))
     | Err _ => false
     end.

(** [checkFile] gets as far as [f.Stat()] on the opened file [f]. *)
Definition reaches_stat (f : file) : bool :=
  if (size FFILTER =? 0)%nat then
    negb (sniffed_out f)
    && match f_seek_err f with None => true | Some _ => false end
  else true.

End ScanVocabulary.

(** What the trace of the walk shows: the paths sent, the lines logged,
    whether it panicked. *)
Definition sends (t : list wevent) : list string :=
  omap (fun e => match e with WSend p => Some p | _ => None end) t.

Definition wlogs (t : list wevent) : list string :=
  omap (fun e => match e with WLog x => Some x | _ => None end) t.

Definition wpanics (t : list wevent) : bool :=
  existsb (fun e => match e with WPanic => true | _ => false end) t.

(** The entries of a tree that are no directories and whose [Lstat]
    succeeds, and the errors met, both in the order of the walk. *)
Definition file_of (v : string * option bool * option string) : option string :=
  match v with
  | (p, Some false, None) => Some p
  | _ => None
  end.

Definition files_of (n : node) : list string := omap file_of (visits n).

Definition errors_of (n : node) : list string := omap snd (visits n).

(** The test of [walkFn] on the extension of a path. *)
Definition passes (FFILTER : FileExtensions) (path : string) : bool :=
  bool_decide (Strings.Ext path ∈ FFILTER) || (size FFILTER =? 0)%nat.

Definition panics (t : list event) : bool :=
  existsb (fun e => match e with EvPanic => true | _ => false end) t.

(** The events of the content type detection: the read of the head, the
    detection and the seek back. *)
Definition sniffing (e : event) : bool :=
  match e with
  | EvRead _ | EvDetect _ | EvSeek => true
  | _ => false
  end.

Definition is_url (path : string) : bool :=
  Strings.HasPrefix path "http://" || Strings.HasPrefix path "https://".

(** No byte of [c] can open a match of a normalizer. *)
Definition plain (c : bytes) : Prop :=
  Forall (fun b => quote_class b = false /\ is_byte "/" b = false
                   /\ is_byte "\" b = false) c.

(** A trace with at most one log line, a [[warning]], and then neither a
    test nor an output. *)
Definition one_warning (t : list event) : Prop :=
  logged t = []
  \/ exists w, logged t = [w] /\ Strings.HasPrefix w "[warning] " = true /\ silent t.

(** Events that are neither a log line, nor an output, nor a test. *)
Definition mute (e : event) : bool :=
  match e with
  | EvLog _ | EvPrint _ | EvMatch _ => false
  | _ => true
  end.

Definition compiled {R} (s : Signature R) : Prop := Regexp s <> None.

(** The read of the head of a file and the detection of its type. *)
Definition head_event (e : event) : bool :=
  match e with EvRead _ | EvDetect _ => true | _ => false end.

(** After the head of [f], every call of [checkFile] on it succeeds and
    its size is within the ceiling. *)
Definition readable (f : file) : bool :=
  match f_seek_err f, f_stat f, f_readall_err f with
  | None, Ok sz, None => sz <=? MAXFILESIZE
  | _, _, _ => false
  end.

(** What follows a span: nothing, or a byte that is not of class [p] and
    is neither a quote, nor a slash, nor a backslash. *)
Definition next_plain_not (p : ascii -> bool) (post : bytes) : Prop :=
  match post with
  | [] => True
  | c :: _ =>
      p c = false /\ quote_class c = false /\ is_byte "/" c = false
      /\ is_byte "\" c = false
  end.

(** [failing_escape span post]: in front of [post], [span] is what step 3
    or step 4 matches, and its decoding fails: [\x] or [\X] with one hex
    digit, [\X] with two, a backslash with one or two decimal digits, or
    with three that are no octal number up to 255. *)
Inductive failing_escape : bytes -> bytes -> Prop :=
| fe_hex1 x h post :
    x_or_X x = true -> hex_class h = true -> next_plain_not hex_class post ->
    failing_escape ["\"%char; x; h] post
| fe_hexX h1 h2 post :
    hex_class h1 = true -> hex_class h2 = true ->
    failing_escape ["\"%char; "X"%char; h1; h2] post
| fe_oct1 d post :
    digit_class d = true -> next_plain_not digit_class post ->
    failing_escape ["\"%char; d] post
| fe_oct2 d1 d2 post :
    digit_class d1 = true -> digit_class d2 = true ->
    next_plain_not digit_class post ->
    failing_escape ["\"%char; d1; d2] post
| fe_oct3 d1 d2 d3 post :
    digit_class d1 = true -> digit_class d2 = true -> digit_class d3 = true ->
    octal_ok d1 d2 d3 = false ->
    failing_escape ["\"%char; d1; d2; d3] post.

(** [Unquote] answers an error on the rune literal of [s]. *)
Definition errs (s : bytes) : bool :=
  match Strconv.UnquoteRune s with
  | Err _ => true
  | Ok _ => false
  end.

(** * Properties *)

(** ** The matcher *)

Section MatcherFacts.

Import Regexp.

Lemma star_greedy_suffix {A} p (k : bytes -> option A) s x :
  star_greedy p s k = Some x -> exists m, k (drop m s) = Some x /\ (m <= length s)%nat.
Proof.
  induction s as [|c s IH]; simpl.
  - intros H. exists 0%nat. auto.
  - destruct (p c).
    + destruct (star_greedy p s k) eqn:E.
      * intros [= <-]. destruct (IH eq_refl) as (m & Hm & Hl).
        exists (S m). split; [exact Hm | lia].
      * intros H. exists 0%nat. split; [exact H | lia].
    + intros H. exists 0%nat. split; [exact H | lia].
Qed.

Lemma star_lazy_suffix {A} p (k : bytes -> option A) s x :
  star_lazy p s k = Some x -> exists m, k (drop m s) = Some x /\ (m <= length s)%nat.
Proof.
  induction s as [|c s IH]; simpl.
  - destruct (k []) eqn:E; [|discriminate].
    intros [= <-]. exists 0%nat. auto.
  - destruct (k (c :: s)) eqn:E.
    + intros [= <-]. exists 0%nat. split; [exact E | lia].
    + destruct (p c); [|discriminate].
      intros H. destruct (IH H) as (m & Hm & Hl).
      exists (S m). split; [exact Hm | lia].
Qed.

(** The continuation is entered on a suffix of the input. *)
Lemma run_suffix {A} r : forall (k : bytes -> option A) s x,
  run r s k = Some x -> exists m, k (drop m s) = Some x /\ (m <= length s)%nat.
Proof.
  induction r as [|p|r1 IH1 r2 IH2|r1 IH1 r2 IH2|g p]; intros k s x; simpl.
  - intros H. exists 0%nat. split; [exact H | lia].
  - destruct s as [|c s]; [discriminate|].
    destruct (p c); [|discriminate].
    intros H. exists 1%nat. simpl. split; [exact H | lia].
  - intros H. apply IH1 in H. destruct H as (m1 & H & Hl1).
    apply IH2 in H. destruct H as (m2 & H & Hl2).
    rewrite drop_drop in H. rewrite length_drop in Hl2.
    exists (m1 + m2)%nat. split; [exact H | lia].
  - destruct (run r1 s k) eqn:E.
    + intros [= <-]. eapply IH1; eauto.
    + apply IH2.
  - destruct g; [apply star_greedy_suffix | apply star_lazy_suffix].
Qed.

Lemma matchAt_suffix r s rest :
  matchAt r s = Some rest -> exists m, rest = drop m s /\ (m <= length s)%nat.
Proof.
  unfold matchAt. intros H. apply run_suffix in H.
  destruct H as (m & [= <-] & Hl). eauto.
Qed.

(** An expression that opens with a one-byte class consumes a byte. *)
Lemma matchAt_Cat_Class p r s rest :
  matchAt (Cat (Class p) r) s = Some rest -> (length rest < length s)%nat.
Proof.
  unfold matchAt. simpl. destruct s as [|c s]; [discriminate|].
  destruct (p c); [|discriminate].
  intros H. apply run_suffix in H. destruct H as (m & [= <-] & Hl).
  rewrite length_drop. simpl. lia.
Qed.

Lemma search_shift r s : forall pos,
  search r s pos =
  match search r s 0 with
  | Some (a, b) => Some (pos + a, pos + b)%nat
  | None => None
  end.
Proof.
  induction s as [|c s IH]; intros pos; simpl.
  - destruct (matchAt r []); [f_equal; f_equal; lia | reflexivity].
  - destruct (matchAt r (c :: s)); [f_equal; f_equal; lia |].
    rewrite (IH (S pos)), (IH 1%nat).
    destruct (search r s 0) as [[a b]|]; [f_equal; f_equal; lia | reflexivity].
Qed.

(** A match found by [search] lies inside the input and, for a consuming
    expression, is not empty. *)
Lemma search_bounds r s : forall a b,
  search r s 0 = Some (a, b) -> (a <= b <= length s)%nat.
Proof.
  induction s as [|c s IH]; intros a b; simpl.
  - destruct (matchAt r []) eqn:E; [|discriminate].
    intros [= <- <-]. simpl. lia.
  - destruct (matchAt r (c :: s)) eqn:E.
    + intros [= <- <-]. simpl. lia.
    + rewrite search_shift. destruct (search r s 0) as [[a' b']|] eqn:E'; [|discriminate].
      intros [= <- <-]. specialize (IH _ _ eq_refl). lia.
Qed.

Lemma search_consuming r s : consuming r -> forall a b,
  search r s 0 = Some (a, b) -> (a < b)%nat.
Proof.
  intros Hc. induction s as [|c s IH]; intros a b; simpl.
  - destruct (matchAt r []) eqn:E; [|discriminate].
    apply Hc in E. simpl in E. lia.
  - destruct (matchAt r (c :: s)) eqn:E.
    + intros [= <- <-]. apply Hc in E. simpl in *. lia.
    + rewrite search_shift. destruct (search r s 0) as [[a' b']|] eqn:E'; [|discriminate].
      intros [= <- <-]. specialize (IH _ _ eq_refl). lia.
Qed.

(** The fuel given by [ReplaceAllFunc] is never used up: past
    [length src + 1 - searchPos] iterations more fuel changes nothing. *)
Lemma replaceAll_loop_fuel r repl (src : bytes) : forall fuel L pos buf,
  (length src + 1 - pos < fuel)%nat ->
  replaceAll_loop (S fuel) r repl src L pos buf
  = replaceAll_loop fuel r repl src L pos buf.
Proof.
  induction fuel as [|k IH]; intros L pos buf Hf.
  - cbn [replaceAll_loop].
    replace (pos <=? length src)%nat with false
      by (symmetry; apply Nat.leb_gt; lia).
    reflexivity.
  - change (replaceAll_loop (S (S k)) r repl src L pos buf)
      with (if (pos <=? length src)%nat then
              match doExecute r src pos with
              | None => buf ++ drop L src
              | Some (a0, a1) =>
                  replaceAll_loop (S k) r repl src a1 (Nat.max a1 (S pos))
                    (if (L <? a1)%nat || (a0 =? 0)%nat
                     then (buf ++ slice src L a0) ++ repl (slice src a0 a1)
                     else buf ++ slice src L a0)
              end
            else buf ++ drop L src).
    change (replaceAll_loop (S k) r repl src L pos buf)
      with (if (pos <=? length src)%nat then
              match doExecute r src pos with
              | None => buf ++ drop L src
              | Some (a0, a1) =>
                  replaceAll_loop k r repl src a1 (Nat.max a1 (S pos))
                    (if (L <? a1)%nat || (a0 =? 0)%nat
                     then (buf ++ slice src L a0) ++ repl (slice src a0 a1)
                     else buf ++ slice src L a0)
              end
            else buf ++ drop L src).
    destruct (pos <=? length src)%nat eqn:E; [|reflexivity].
    apply Nat.leb_le in E.
    destruct (doExecute r src pos) as [[a0 a1]|]; [|reflexivity].
    apply IH. lia.
Qed.

End MatcherFacts.

Section ReplaceFacts.

Import Regexp.

Variable r : re.
Variable repl : bytes -> bytes.
Hypothesis r_consuming : consuming r.

Lemma slice_drop (src : bytes) (L a b : nat) :
  slice (drop L src) a b = slice src (L + a) (L + b).
Proof.
  unfold slice. rewrite drop_drop. f_equal. lia.
Qed.

(** Resuming the loop at [L] on [src] is running it afresh on
    [drop L src]; the fuel does not matter once it covers what is left. *)
Lemma loop_restart : forall n fuel fuel' (src : bytes) L buf,
  (length src - L <= n)%nat -> (L <= length src)%nat ->
  (n < fuel)%nat -> (n < fuel')%nat ->
  replaceAll_loop fuel r repl src L L buf =
  buf ++ replaceAll_loop fuel' r repl (drop L src) 0 0 [].
Proof.
  induction n as [n IH] using lt_wf_ind.
  intros fuel fuel' src L buf Hn HL Hf Hf'.
  destruct fuel as [|k]; [lia|]. destruct fuel' as [|k']; [lia|].
  simpl replaceAll_loop.
  replace (L <=? length src)%nat with true by (symmetry; apply Nat.leb_le; lia).
  unfold doExecute. rewrite drop_0.
  rewrite (search_shift r (drop L src) L).
  destruct (search r (drop L src) 0) as [[a b]|] eqn:E.
  - pose proof (search_bounds _ _ _ _ E) as Hb.
    pose proof (search_consuming _ _ r_consuming _ _ E) as Hlt.
    rewrite length_drop in Hb.
    replace (L <? L + b)%nat with true by (symmetry; apply Nat.ltb_lt; lia).
    replace (0 <? b)%nat with true by (symmetry; apply Nat.ltb_lt; lia).
    simpl orb. cbv iota.
    replace (Nat.max (L + b) (S L)) with (L + b)%nat by lia.
    replace (Nat.max b 1) with b by lia.
    rewrite (IH (length src - (L + b))%nat ltac:(lia) k (S (length src)) src
                (L + b)%nat _ ltac:(lia) ltac:(lia) ltac:(lia) ltac:(lia)).
    rewrite (IH (length src - (L + b))%nat ltac:(lia) k' (S (length src))
                (drop L src) b _).
    + rewrite drop_drop, !slice_drop, Nat.add_0_r.
      rewrite <- !app_assoc. reflexivity.
    + rewrite length_drop. lia.
    + rewrite length_drop. lia.
    + lia.
    + lia.
  - reflexivity.
Qed.

Lemma ReplaceAllFunc_none (src : bytes) :
  doExecute r src 0 = None -> ReplaceAllFunc r src repl = src.
Proof.
  intros H. unfold ReplaceAllFunc.
  replace (length src + 2)%nat with (S (length src + 1)) by lia.
  simpl. rewrite H. reflexivity.
Qed.

(** The first match is replaced and the rest of the input is treated
    the same way. *)
Lemma ReplaceAllFunc_step (src : bytes) (a0 a1 : nat) :
  doExecute r src 0 = Some (a0, a1) ->
  ReplaceAllFunc r src repl =
  take a0 src ++ repl (slice src a0 a1) ++ ReplaceAllFunc r (drop a1 src) repl.
Proof.
  intros H. unfold ReplaceAllFunc at 1.
  replace (length src + 2)%nat with (S (length src + 1)) by lia.
  simpl replaceAll_loop. rewrite H.
  unfold doExecute in H. rewrite drop_0 in H.
  pose proof (search_bounds _ _ _ _ H) as Hb.
  pose proof (search_consuming _ _ r_consuming _ _ H) as Hlt.
  replace (0 <? a1)%nat with true by (symmetry; apply Nat.ltb_lt; lia).
  simpl orb. cbv iota.
  replace (Nat.max a1 1) with a1 by lia.
  rewrite (loop_restart (length src - a1) (length src + 1)
             (length (drop a1 src) + 2) src a1).
  - unfold ReplaceAllFunc, slice at 1. rewrite drop_0, Nat.sub_0_r.
    rewrite <- !app_assoc. reflexivity.
  - lia.
  - lia.
  - lia.
  - rewrite length_drop. lia.
Qed.

End ReplaceFacts.

(** ** The content normalizer *)

Lemma re_hex_consuming : consuming re_hex.
Proof. intros s rest. apply matchAt_Cat_Class. Qed.

Lemma re_octal_consuming : consuming re_octal.
Proof. intros s rest. apply matchAt_Cat_Class. Qed.

Lemma re_concat_consuming : consuming re_concat.
Proof. intros s rest. apply matchAt_Cat_Class. Qed.

Lemma re_comment_consuming : consuming re_comment.
Proof. intros s rest. apply matchAt_Cat_Class. Qed.

Lemma normalize_steps (c : bytes) :
  normalize normalizers c =
  ReplaceAllFunc re_octal
    (ReplaceAllFunc re_hex
       (ReplaceAll re_comment (ReplaceAll re_concat c []) []) unquoteStr)
    unquoteStr.
Proof. reflexivity. Qed.

(** C1: the normalizer runs its four steps in one fixed order (quote-dot-quote
    deletion, block comment deletion, hex decoding, octal decoding) on every
    input, and the four vectors of the specification hold.  The last
    conjunct shows the order at work: a comment opener that only appears
    once [\x2f] is decoded is not stripped, since stripping ran first. *)
Theorem normalize_fixed_order_vectors :
  (forall c : bytes,
     normalize normalizers c =
     ReplaceAllFunc re_octal
       (ReplaceAllFunc re_hex
          (ReplaceAll re_comment (ReplaceAll re_concat c []) []) unquoteStr)
       unquoteStr)
  /\ normalize normalizers (B "'ev'.'al'") = B "'eval'"
  /\ normalize normalizers (B "/* comment */payload") = B "payload"
  /\ normalize normalizers (B "\x65\x76\x61\x6c") = B "eval"
  /\ normalize normalizers (B "\145\166\141\154") = B "eval"
  /\ normalize normalizers (B "\x2f* hidden */x") = B "/* hidden */x".
Proof.
  split; [exact normalize_steps|].
  repeat split; vm_compute; reflexivity.
Qed.

Lemma digit_cases d : digit_class d = true -> In d digits.
Proof.
  intros H.
  assert (H' : existsb (Ascii.eqb d) digits = true).
  { revert H. destruct d as [[] [] [] [] [] [] [] []]; vm_compute; exact (fun H => H). }
  apply existsb_exists in H'. destruct H' as (c & Hc & E).
  apply Ascii.eqb_eq in E. subst c. exact Hc.
Qed.

Lemma hex_cases h : hex_class h = true -> In h hexdigits.
Proof.
  intros H.
  assert (H' : existsb (Ascii.eqb h) hexdigits = true).
  { revert H. destruct h as [[] [] [] [] [] [] [] []]; vm_compute; exact (fun H => H). }
  apply existsb_exists in H'. destruct H' as (c & Hc & E).
  apply Ascii.eqb_eq in E. subst c. exact Hc.
Qed.

Lemma x_cases x : x_or_X x = true -> In x (B "xX").
Proof.
  unfold x_or_X, either, is_byte. intros H. apply orb_prop in H.
  destruct H as [H|H]; apply Ascii.eqb_eq in H; subst x; simpl; auto.
Qed.

Lemma matchAt_hex1 x h t :
  x_or_X x = true -> hex_class h = true -> no_more hex_class t ->
  matchAt re_hex ("\"%char :: x :: h :: t) = Some t.
Proof.
  intros Hx Hh Ht. unfold matchAt, re_hex, Rep12, Quest. cbn.
  fold x_or_X. rewrite Hx, Hh.
  destruct t as [|c t]; [reflexivity|]. simpl in Ht. rewrite Ht. reflexivity.
Qed.

Lemma matchAt_hex2 x h1 h2 t :
  x_or_X x = true -> hex_class h1 = true -> hex_class h2 = true ->
  matchAt re_hex ("\"%char :: x :: h1 :: h2 :: t) = Some t.
Proof.
  intros Hx H1 H2. unfold matchAt, re_hex, Rep12, Quest. cbn.
  fold x_or_X. rewrite Hx, H1, H2. reflexivity.
Qed.

Lemma matchAt_octal1 d t :
  digit_class d = true -> no_more digit_class t ->
  matchAt re_octal ("\"%char :: d :: t) = Some t.
Proof.
  intros Hd Ht. unfold matchAt, re_octal, Rep13, Quest. cbn. rewrite Hd.
  destruct t as [|c t]; [reflexivity|]. simpl in Ht. rewrite Ht. reflexivity.
Qed.

Lemma matchAt_octal2 d1 d2 t :
  digit_class d1 = true -> digit_class d2 = true -> no_more digit_class t ->
  matchAt re_octal ("\"%char :: d1 :: d2 :: t) = Some t.
Proof.
  intros H1 H2 Ht. unfold matchAt, re_octal, Rep13, Quest. cbn. rewrite H1, H2.
  destruct t as [|c t]; [reflexivity|]. simpl in Ht. rewrite Ht. reflexivity.
Qed.

Lemma matchAt_octal3 d1 d2 d3 t :
  digit_class d1 = true -> digit_class d2 = true -> digit_class d3 = true ->
  matchAt re_octal ("\"%char :: d1 :: d2 :: d3 :: t) = Some t.
Proof.
  intros H1 H2 H3. unfold matchAt, re_octal, Rep13, Quest. cbn.
  rewrite H1, H2, H3. reflexivity.
Qed.

Lemma same_eq a b : same a b = true -> a = b.
Proof. unfold same. intros H. apply bool_decide_eq_true in H. exact H. Qed.

Lemma unquote_hex1 x h :
  x_or_X x = true -> hex_class h = true -> unquoteStr ["\"%char; x; h] = [].
Proof.
  intros Hx Hh. apply same_eq.
  assert (T : forallb (fun x => forallb (fun h =>
                same (unquoteStr ["\"%char; x; h]) []) hexdigits) (B "xX") = true)
    by (vm_compute; reflexivity).
  rewrite forallb_forall in T. specialize (T x (x_cases x Hx)).
  rewrite forallb_forall in T. exact (T h (hex_cases h Hh)).
Qed.

Lemma unquote_hex2 x h1 h2 :
  x_or_X x = true -> hex_class h1 = true -> hex_class h2 = true ->
  unquoteStr ["\"%char; x; h1; h2] =
  if is_byte x "x" then [byte_of (16 * hexval h1 + hexval h2)] else [].
Proof.
  intros Hx H1 H2. apply same_eq.
  assert (T : forallb (fun x => forallb (fun h1 => forallb (fun h2 =>
                same (unquoteStr ["\"%char; x; h1; h2])
                     (if is_byte x "x" then [byte_of (16 * hexval h1 + hexval h2)] else []))
                hexdigits) hexdigits) (B "xX") = true)
    by (vm_compute; reflexivity).
  rewrite forallb_forall in T. specialize (T x (x_cases x Hx)).
  rewrite forallb_forall in T. specialize (T h1 (hex_cases h1 H1)).
  rewrite forallb_forall in T. exact (T h2 (hex_cases h2 H2)).
Qed.

Lemma unquote_octal1 d : digit_class d = true -> unquoteStr ["\"%char; d] = [].
Proof.
  intros Hd. apply same_eq.
  assert (T : forallb (fun d => same (unquoteStr ["\"%char; d]) []) digits = true)
    by (vm_compute; reflexivity).
  rewrite forallb_forall in T. exact (T d (digit_cases d Hd)).
Qed.

Lemma unquote_octal2 d1 d2 :
  digit_class d1 = true -> digit_class d2 = true ->
  unquoteStr ["\"%char; d1; d2] = [].
Proof.
  intros H1 H2. apply same_eq.
  assert (T : forallb (fun d1 => forallb (fun d2 =>
                same (unquoteStr ["\"%char; d1; d2]) []) digits) digits = true)
    by (vm_compute; reflexivity).
  rewrite forallb_forall in T. specialize (T d1 (digit_cases d1 H1)).
  rewrite forallb_forall in T. exact (T d2 (digit_cases d2 H2)).
Qed.

Lemma unquote_octal3 d1 d2 d3 :
  digit_class d1 = true -> digit_class d2 = true -> digit_class d3 = true ->
  unquoteStr ["\"%char; d1; d2; d3] =
  if octal_ok d1 d2 d3
  then [byte_of (64 * octval d1 + 8 * octval d2 + octval d3)] else [].
Proof.
  intros H1 H2 H3. apply same_eq.
  assert (T : forallb (fun d1 => forallb (fun d2 => forallb (fun d3 =>
                same (unquoteStr ["\"%char; d1; d2; d3])
                     (if octal_ok d1 d2 d3
                      then [byte_of (64 * octval d1 + 8 * octval d2 + octval d3)]
                      else []))
                digits) digits) digits = true)
    by (vm_compute; reflexivity).
  rewrite forallb_forall in T. specialize (T d1 (digit_cases d1 H1)).
  rewrite forallb_forall in T. specialize (T d2 (digit_cases d2 H2)).
  rewrite forallb_forall in T. exact (T d3 (digit_cases d3 H3)).
Qed.

Lemma escape_consuming r : r = re_hex \/ r = re_octal -> consuming r.
Proof.
  intros [->| ->]; [apply re_hex_consuming | apply re_octal_consuming].
Qed.

Lemma unquoteStr_error s e : Strconv.UnquoteRune s = Err e -> unquoteStr s = [].
Proof. unfold unquoteStr. intros ->. reflexivity. Qed.



(** ** The extension filter *)

Lemma with_dot_dotted s : first_is_dot (with_dot s) = true.
Proof.
  unfold with_dot. destruct (first_is_dot s) eqn:E; [exact E | reflexivity].
Qed.

Lemma add_ext_elem li s e :
  e ∈ add_ext li s <->
  e ∈ li \/ (Strings.TrimSpace s <> EmptyString /\ e = with_dot (Strings.TrimSpace s)).
Proof.
  unfold add_ext, with_dot.
  destruct (Strings.TrimSpace s) as [|c t] eqn:E; simpl.
  - split; [auto | intros [H|[H _]]; [exact H | congruence]].
  - destruct (Ascii.eqb c "."); rewrite elem_of_union, elem_of_singleton;
      split; intros [H|H]; auto; try (right; split; [discriminate | exact H]);
      destruct H as [_ H]; auto.
Qed.

Lemma foldl_add_ext_elem l : forall li e,
  e ∈ foldl add_ext li l <->
  e ∈ li \/ exists s, In s l /\ Strings.TrimSpace s <> EmptyString
                      /\ e = with_dot (Strings.TrimSpace s).
Proof.
  induction l as [|s l IH]; intros li e; simpl.
  - split; [auto | intros [H|(s & [] & _)]; exact H].
  - rewrite IH, add_ext_elem. split.
    + intros [[H|[H1 H2]]|(s' & Hs & H1 & H2)]; eauto 6.
    + intros [H|(s' & [<-|Hs] & H1 & H2)]; eauto 6.
Qed.

(** C8: every extension is stored with a leading dot ([php] as [.php]),
    empty entries are dropped, and a filter that is not empty cannot be set
    again: [Set] answers an error and the filter stays as it was. *)
Theorem filter_dotted_and_set_once :
  (forall li value, dotted li -> dotted (FileExtensions_Set li value).1)
  /\ (forall value e,
        e ∈ (FileExtensions_Set ∅ value).1 <->
        exists s, In s (Strings.Split value ",")
                  /\ Strings.TrimSpace s <> EmptyString
                  /\ e = with_dot (Strings.TrimSpace s))
  /\ (forall li value,
        li <> ∅ -> FileExtensions_Set li value = (li, Some FlagAlreadySet))
  /\ (FileExtensions_Set ∅ "php").1 = {[ ".php"%string ]}
  /\ (FileExtensions_Set ∅ "php,, ,inc").1 = {[ ".php"%string; ".inc"%string ]}.
Proof.
  assert (Hempty : forall value,
            FileExtensions_Set ∅ value = (foldl add_ext ∅ (Strings.Split value ","), None)).
  { intros value. unfold FileExtensions_Set.
    destruct (decide (0 < size (∅ : FileExtensions))%nat) as [H|H]; [|reflexivity].
    rewrite size_empty in H. lia. }
  repeat apply conj.
  - intros li value Hd. unfold FileExtensions_Set.
    destruct (decide (0 < size li)%nat) as [H|H]; [exact Hd|].
    simpl. intros e He. apply foldl_add_ext_elem in He.
    destruct He as [He|(s & _ & _ & ->)]; [apply Hd, He | apply with_dot_dotted].
  - intros value e. rewrite Hempty. simpl. rewrite foldl_add_ext_elem.
    split; [intros [H|H]; [set_solver | exact H] | auto].
  - intros li value Hne. unfold FileExtensions_Set.
    destruct (decide (0 < size li)%nat) as [H|H]; [reflexivity|].
    exfalso. apply Hne. apply leibniz_equiv, size_empty_inv. lia.
  - rewrite Hempty. cbn [fst]. apply set_eq. intros e. rewrite foldl_add_ext_elem.
    rewrite elem_of_singleton. split.
    + intros [H|(s & [<-|[]] & _ & ->)]; [set_solver | reflexivity].
    + intros ->. right. exists "php"%string. split; [left; reflexivity|].
      split; [discriminate | reflexivity].
  - rewrite Hempty. cbn [fst]. apply set_eq. intros e. rewrite foldl_add_ext_elem.
    rewrite elem_of_union, !elem_of_singleton. split.
    + intros [H|(s & Hs & Hn & ->)]; [set_solver|].
      simpl in Hs. destruct Hs as [<-|[<-|[<-|[<-|[]]]]]; auto; exfalso; apply Hn; reflexivity.
    + intros [-> | ->]; right.
      * exists "php"%string. split; [left; reflexivity|]. split; [discriminate | reflexivity].
      * exists "inc"%string. split; [right; right; right; left; reflexivity|].
        split; [discriminate | reflexivity].
Qed.

Lemma filter_dotted_and_set_once_witness :
  dotted (FileExtensions_Set {[ ".php"%string ]} "js").1
  /\ ".inc"%string ∈ (FileExtensions_Set ∅ "php, inc ").1
  /\ FileExtensions_Set {[ ".php"%string ]} "js" = ({[ ".php"%string ]}, Some FlagAlreadySet).
Proof.
  destruct filter_dotted_and_set_once as (H1 & H2 & H3 & _).
  repeat apply conj.
  - apply H1. intros e He. apply elem_of_singleton in He. subst e. reflexivity.
  - apply (H2 "php, inc "%string ".inc"%string). exists " inc "%string.
    split; [right; left; reflexivity|]. split; [discriminate | reflexivity].
  - apply H3. intros E. apply (f_equal size) in E.
    rewrite size_singleton, size_empty in E. discriminate.
Defined.

(** ** Loading the database *)

Section DatabaseFacts.

Context {R : Type}.
Variable regexp_Compile : string -> result R string.
Variable os_Open : string -> result file string.
Variable http_Get : string -> result bytes string.
Variable xml_Decode : bytes -> result (list entry) string.
Variable DBFILE : string.

Local Abbreviation compileFrom := (compileFrom regexp_Compile).
Local Abbreviation loadDocument := (loadDocument os_Open http_Get xml_Decode DBFILE).
Local Abbreviation readDatabase := (readDatabase regexp_Compile os_Open http_Get xml_Decode DBFILE).
Local Abbreviation compiled_as := (compiled_as regexp_Compile).
Local Abbreviation compiles := (compiles regexp_Compile).

Lemma alter_middle (f : Signature R -> Signature R) done s rest :
  alter f (length done) (done ++ s :: rest) = done ++ f s :: rest.
Proof.
  induction done as [|d done IH]; simpl; [reflexivity|].
  f_equal. exact IH.
Qed.

(** The loop, started with [done] already compiled, on the entries [es]
    still to visit. *)
Lemma compileFrom_ok es : forall done out,
  compileFrom (length done) (map decoded es) (done ++ map decoded es) = Ok out ->
  exists cs, out = done ++ cs /\ Forall2 compiled_as es cs.
Proof.
  induction es as [|e es IH]; intros done out; simpl.
  - intros [= <-]. exists []. split; [reflexivity | constructor].
  - destruct (regexp_Compile (e_chardata e)) as [r|err] eqn:E; [|discriminate].
    rewrite alter_middle.
    replace (done ++ set_Regexp r (decoded e) :: map decoded es)
      with ((done ++ [set_Regexp r (decoded e)]) ++ map decoded es)
      by (rewrite <- app_assoc; reflexivity).
    replace (S (length done)) with (length (done ++ [set_Regexp r (decoded e)]))
      by (rewrite length_app; simpl; lia).
    intros H. apply IH in H. destruct H as (cs & -> & HF).
    exists (set_Regexp r (decoded e) :: cs). split.
    + rewrite <- app_assoc. reflexivity.
    + constructor; [|exact HF]. exists r. split; [exact E | reflexivity].
Qed.

Lemma compileFrom_all es : forall done,
  Forall compiles es ->
  exists cs, compileFrom (length done) (map decoded es) (done ++ map decoded es)
             = Ok (done ++ cs).
Proof.
  induction es as [|e es IH]; intros done HF; simpl.
  - exists []. rewrite app_nil_r. reflexivity.
  - inversion HF as [|? ? [r E] HF']; subst. rewrite E. rewrite alter_middle.
    replace (done ++ set_Regexp r (decoded e) :: map decoded es)
      with ((done ++ [set_Regexp r (decoded e)]) ++ map decoded es)
      by (rewrite <- app_assoc; reflexivity).
    replace (S (length done)) with (length (done ++ [set_Regexp r (decoded e)]))
      by (rewrite length_app; simpl; lia).
    destruct (IH (done ++ [set_Regexp r (decoded e)]) HF') as (cs & ->).
    exists (set_Regexp r (decoded e) :: cs). rewrite <- app_assoc. reflexivity.
Qed.

Lemma compileFrom_err pre e post err : forall done,
  Forall compiles pre ->
  regexp_Compile (e_chardata e) = Err err ->
  compileFrom (length done) (map decoded (pre ++ e :: post))
              (done ++ map decoded (pre ++ e :: post))
  = Err (CompileError (e_id e) (e_chardata e) err).
Proof.
  induction pre as [|p pre IH]; intros done HF E; simpl.
  - rewrite E. reflexivity.
  - inversion HF as [|? ? [r Er] HF']; subst. rewrite Er. rewrite alter_middle.
    replace (done ++ set_Regexp r (decoded p) :: map decoded (pre ++ e :: post))
      with ((done ++ [set_Regexp r (decoded p)]) ++ map decoded (pre ++ e :: post))
      by (rewrite <- app_assoc; reflexivity).
    replace (S (length done)) with (length (done ++ [set_Regexp r (decoded p)]))
      by (rewrite length_app; simpl; lia).
    apply IH; assumption.
Qed.

Lemma critSignatures_filter (sigs : list (Signature R)) :
  critSignatures sigs = List.filter critical sigs.
Proof.
  unfold critSignatures.
  assert (G : forall acc, foldl (fun acc sig => if critical sig then acc ++ [sig] else acc)
                            acc sigs = acc ++ List.filter critical sigs).
  { induction sigs as [|s sigs IH]; intros acc; simpl.
    - rewrite app_nil_r. reflexivity.
    - rewrite IH. destruct (critical s); [rewrite <- app_assoc|]; reflexivity. }
  apply (G []).
Qed.

Lemma first_failure (es : list entry) :
  Forall compiles es
  \/ exists pre e post err,
       es = pre ++ e :: post /\ Forall compiles pre
       /\ regexp_Compile (e_chardata e) = Err err.
Proof.
  induction es as [|e es IH]; [left; constructor|].
  destruct (regexp_Compile (e_chardata e)) as [r|err] eqn:E.
  - destruct IH as [IH|(pre & e' & post & err & -> & HF & E')].
    + left. constructor; [exists r; exact E | exact IH].
    + right. exists (e :: pre), e', post, err. split; [reflexivity|].
      split; [constructor; [exists r; exact E | exact HF] | exact E'].
  - right. exists [], e, es, err. split; [reflexivity|].
    split; [constructor | exact E].
Qed.

Lemma readDatabase_failure SKIPSOFT path pre e post err :
  loadDocument path = Ok (pre ++ e :: post) ->
  Forall compiles pre -> regexp_Compile (e_chardata e) = Err err ->
  readDatabase SKIPSOFT path = Err (CompileError (e_id e) (e_chardata e) err).
Proof.
  intros HL HF E. unfold readDatabase. rewrite HL.
  replace (length (map decoded (pre ++ e :: post)) =? 0)%nat with false
    by (rewrite length_map, length_app; simpl; symmetry; apply Nat.eqb_neq; lia).
  pose proof (compileFrom_err pre e post err [] HF E) as H.
  cbn [length app] in H. rewrite H. reflexivity.
Qed.

Lemma readDatabase_success SKIPSOFT path es db :
  loadDocument path = Ok es -> readDatabase SKIPSOFT path = Ok db ->
  es <> []
  /\ exists full, Forall2 compiled_as es full
                  /\ db = if SKIPSOFT then List.filter critical full else full.
Proof.
  intros HL. unfold readDatabase. rewrite HL.
  destruct (length (map decoded es) =? 0)%nat eqn:E0; [discriminate|].
  destruct (compileFrom 0 (map decoded es) (map decoded es)) as [out|e] eqn:E;
    [|discriminate].
  apply (compileFrom_ok es []) in E. destruct E as (cs & -> & HF).
  intros H. split.
  - intros ->. discriminate.
  - exists cs. split; [exact HF|]. rewrite <- critSignatures_filter.
    simpl in H. destruct SKIPSOFT; congruence.
Qed.

Lemma readDatabase_all SKIPSOFT path es :
  loadDocument path = Ok es -> es <> [] -> Forall compiles es ->
  exists full, Forall2 compiled_as es full
               /\ readDatabase SKIPSOFT path
                  = Ok (if SKIPSOFT then List.filter critical full else full).
Proof.
  intros HL Hne HF.
  destruct (compileFrom_all es [] HF) as (cs & Hcs).
  pose proof (compileFrom_ok es [] _ Hcs) as (cs' & Heq & HF2).
  simpl in Heq. subst cs'. exists cs. split; [exact HF2|].
  unfold readDatabase. rewrite HL.
  replace (length (map decoded es) =? 0)%nat with false
    by (destruct es; [congruence | reflexivity]).
  simpl in Hcs. rewrite Hcs. rewrite critSignatures_filter.
  destruct SKIPSOFT; reflexivity.
Qed.

(** C3: when a pattern does not compile, [readDatabase] answers an error
    that carries the id and the pattern of the first such signature, and
    no signature set; a set that is returned holds every signature of the
    document, compiled, in document order (filtered under skip-soft).
    So a load either compiles all or fails as a whole. *)
Theorem load_compiles_all_or_fails SKIPSOFT path es :
  loadDocument path = Ok es ->
  (forall pre e post err,
      es = pre ++ e :: post -> Forall compiles pre ->
      regexp_Compile (e_chardata e) = Err err ->
      readDatabase SKIPSOFT path = Err (CompileError (e_id e) (e_chardata e) err))
  /\ (forall db,
        readDatabase SKIPSOFT path = Ok db ->
        Forall compiles es
        /\ exists full, Forall2 compiled_as es full
                        /\ db = if SKIPSOFT then List.filter critical full else full)
  /\ (es <> [] ->
      (exists full, Forall2 compiled_as es full
                    /\ readDatabase SKIPSOFT path
                       = Ok (if SKIPSOFT then List.filter critical full else full))
      \/ (exists pre e post err,
            es = pre ++ e :: post /\ Forall compiles pre
            /\ regexp_Compile (e_chardata e) = Err err
            /\ readDatabase SKIPSOFT path
               = Err (CompileError (e_id e) (e_chardata e) err))).
Proof.
  intros HL. repeat apply conj.
  - intros pre e post err -> HF E.
    apply (readDatabase_failure SKIPSOFT path pre e post err); assumption.
  - intros db Hdb. split.
    + destruct (first_failure es) as [H|(pre & e & post & err & -> & HF & E)];
        [exact H|].
      rewrite (readDatabase_failure SKIPSOFT path pre e post err HL HF E) in Hdb.
      discriminate.
    + apply (readDatabase_success SKIPSOFT path es db HL Hdb).
  - intros Hne.
    destruct (first_failure es) as [H|(pre & e & post & err & -> & HF & E)].
    + left. apply readDatabase_all; assumption.
    + right. exists pre, e, post, err. repeat split; try assumption.
      apply (readDatabase_failure SKIPSOFT path pre e post err); assumption.
Qed.

Lemma skip_soft_filter path es :
  loadDocument path = Ok es ->
  (forall db,
      readDatabase true path = Ok db ->
      exists full, Forall2 compiled_as es full /\ db = List.filter critical full)
  /\ (es <> [] -> Forall compiles es ->
      exists full, Forall2 compiled_as es full
                   /\ readDatabase true path = Ok (List.filter critical full))
  /\ (es <> [] -> Forall compiles es ->
      Forall (fun e => e_sever e <> "c"%string) es ->
      readDatabase true path = Ok []).
Proof.
  intros HL. repeat apply conj.
  - intros db Hdb. apply (readDatabase_success true path es db HL Hdb).
  - intros Hne HF. apply (readDatabase_all true path es HL Hne HF).
  - intros Hne HF Hsoft.
    destruct (readDatabase_all true path es HL Hne HF) as (full & HF2 & ->).
    f_equal. clear HL Hne HF. induction HF2 as [|e s es full Hc HF2 IH]; [reflexivity|].
    inversion Hsoft as [|? ? Hs Hsoft']; subst. simpl.
    destruct Hc as (r & _ & ->). unfold critical at 1. simpl.
    destruct (String.eqb_spec (e_sever e) "c"); [contradiction|]. apply IH, Hsoft'.
Qed.

End DatabaseFacts.

(** ** Scanning a file *)

Section ScanFacts.

Context {R : Type}.
Variable regexp_Match : R -> bytes -> bool.
Variable DetectContentType : bytes -> string.
Variable os_Open : string -> result file string.
Variable FFILTER : FileExtensions.

Local Abbreviation matchLoop := (matchLoop regexp_Match).
Local Abbreviation checkSize := (checkSize regexp_Match).
Local Abbreviation rewind := (rewind regexp_Match).
Local Abbreviation checkFile := (checkFile regexp_Match DetectContentType os_Open FFILTER).
Local Abbreviation no_match := (no_match regexp_Match).
Local Abbreviation sniffed_out := (sniffed_out DetectContentType FFILTER).
Local Abbreviation reaches_stat := (reaches_stat DetectContentType FFILTER).

Lemma printed_tests (l : list (Signature R)) : printed (tests l) = [].
Proof. induction l; [reflexivity | exact IHl]. Qed.

Lemma tested_tests (l : list (Signature R)) : tested (tests l) = map Id l.
Proof. induction l; [reflexivity | simpl; f_equal; exact IHl]. Qed.

Lemma matchLoop_none path c sigs :
  Forall (no_match c) sigs -> matchLoop path c sigs = tests sigs.
Proof.
  induction 1 as [|s sigs (r & Hr & Hm) _ IH]; simpl; [reflexivity|].
  rewrite Hr, Hm, IH. reflexivity.
Qed.

Lemma matchLoop_first path c pre s post r :
  Forall (no_match c) pre -> Regexp s = Some r -> regexp_Match r c = true ->
  matchLoop path c (pre ++ s :: post) =
  tests pre ++ [EvMatch (Id s); EvPrint (matched (Title s) (Id s) path)].
Proof.
  intros HF Hr Hm. induction HF as [|s' pre (r' & Hr' & Hm') _ IH]; simpl.
  - rewrite Hr, Hm. reflexivity.
  - rewrite Hr', Hm', IH. reflexivity.
Qed.

(** A printed text comes from the first signature that matches. *)
Lemma matchLoop_print path c sigs text :
  In (EvPrint text) (matchLoop path c sigs) ->
  exists pre s post r,
    sigs = pre ++ s :: post /\ Forall (no_match c) pre
    /\ Regexp s = Some r /\ regexp_Match r c = true
    /\ text = matched (Title s) (Id s) path.
Proof.
  induction sigs as [|s sigs IH]; simpl; [intros []|].
  destruct (Regexp s) as [r|] eqn:Hr.
  - destruct (regexp_Match r c) eqn:Hm.
    + intros [H|[H|[]]]; [discriminate|]. injection H as <-.
      exists [], s, sigs, r. repeat split; auto.
    + intros [H|H]; [discriminate|].
      destruct (IH H) as (pre & s' & post & r' & -> & HF & Hr' & Hm' & ->).
      exists (s :: pre), s', post, r'. repeat split; auto.
      constructor; [exists r; auto | exact HF].
  - intros [H|[]]. discriminate.
Qed.

Lemma matchLoop_quiet path c sigs :
  Forall (fun s => forall r, Regexp s = Some r -> regexp_Match r c = false) sigs ->
  printed (matchLoop path c sigs) = [].
Proof.
  induction 1 as [|s sigs Hs _ IH]; simpl; [reflexivity|].
  destruct (Regexp s) as [r|] eqn:Hr; [|reflexivity].
  rewrite (Hs r eq_refl). exact IH.
Qed.

Lemma printed_matchLoop_le path c sigs :
  (length (printed (matchLoop path c sigs)) <= 1)%nat.
Proof.
  induction sigs as [|s sigs IH]; simpl; [lia|].
  destruct (Regexp s) as [r|]; [|simpl; lia].
  destruct (regexp_Match r c); [simpl; lia | exact IH].
Qed.

Lemma checkSize_cases path f sigs nr :
  silent (checkSize path f sigs nr)
  \/ checkSize path f sigs nr
     = EvReadAll :: matchLoop path (normalize nr (f_content f)) sigs.
Proof.
  unfold checkSize, silent.
  destruct (f_stat f) as [sz|e]; [|left; split; reflexivity].
  destruct (MAXFILESIZE <? sz); [left; split; reflexivity|].
  destruct (f_readall_err f); [left; split; reflexivity|].
  destruct (length nr <? 2)%nat; [left; split; reflexivity | right; reflexivity].
Qed.

Lemma rewind_cases path f sigs nr :
  silent (rewind path f sigs nr)
  \/ rewind path f sigs nr
     = EvSeek :: EvReadAll :: matchLoop path (normalize nr (f_content f)) sigs.
Proof.
  unfold rewind.
  destruct (f_seek_err f); [left; split; reflexivity|].
  destruct (checkSize_cases path f sigs nr) as [[H1 H2]|H].
  - left. split; [exact H1 | exact H2].
  - right. rewrite H. reflexivity.
Qed.

(** Either nothing is tested and nothing printed, or the file was opened
    and, after a silent prelude, read whole and handed to the loop. *)
Lemma checkFile_cases path sigs nr :
  silent (checkFile path sigs nr)
  \/ exists f pre,
       os_Open path = Ok f /\ silent pre
       /\ checkFile path sigs nr
          = pre ++ EvReadAll :: matchLoop path (normalize nr (f_content f)) sigs.
Proof.
  unfold checkFile.
  destruct (os_Open path) as [f|e]; [|left; split; reflexivity].
  destruct (size FFILTER =? 0)%nat.
  - destruct (Read512 f) as [head|e].
    + destruct (Strings.HasPrefix (DetectContentType head) "text/");
        [|destruct (Strings.HasSuffix (DetectContentType head) "/xml");
          [|left; split; reflexivity]].
      * destruct (rewind_cases path f sigs nr) as [[H1 H2]|H].
        -- left. split; [exact H1 | exact H2].
        -- right. exists f, [EvRead (length head); EvDetect (DetectContentType head); EvSeek].
           rewrite H. repeat split.
      * destruct (rewind_cases path f sigs nr) as [[H1 H2]|H].
        -- left. split; [exact H1 | exact H2].
        -- right. exists f, [EvRead (length head); EvDetect (DetectContentType head); EvSeek].
           rewrite H. repeat split.
    + destruct (rewind_cases path f sigs nr) as [[H1 H2]|H].
      * left. split; [exact H1 | exact H2].
      * right. exists f, [EvRead 0; EvSeek]. rewrite H. repeat split.
  - destruct (checkSize_cases path f sigs nr) as [[H1 H2]|H].
    + left. split; [exact H1 | exact H2].
    + right. exists f, []. rewrite H. repeat split.
Qed.

Lemma printed_app a b : printed (a ++ b) = printed a ++ printed b.
Proof. apply omap_app. Qed.

Lemma tested_app a b : tested (a ++ b) = tested a ++ tested b.
Proof. apply omap_app. Qed.

Lemma In_printed text t : In (EvPrint text) t -> In text (printed t).
Proof.
  induction t as [|e t IH]; simpl; [auto|].
  intros [->|H]; [left; reflexivity|].
  destruct e; simpl; auto.
Qed.

(** The trace of a scan in which [s] is the first signature to match. *)
Lemma scan_first_match pre0 path c pre s post r :
  silent pre0 ->
  Forall (no_match c) pre -> Regexp s = Some r -> regexp_Match r c = true ->
  let t := pre0 ++ EvReadAll :: matchLoop path c (pre ++ s :: post) in
  printed t = [matched (Title s) (Id s) path]
  /\ tested t = map Id (pre ++ [s])
  /\ last t = Some (EvPrint (matched (Title s) (Id s) path)).
Proof.
  intros [Hp Ht] HF Hr Hm t. subst t.
  rewrite (matchLoop_first path c pre s post r HF Hr Hm).
  repeat apply conj.
  - rewrite printed_app, Hp. simpl. change (printed (tests pre ++ [EvMatch (Id s); EvPrint (matched (Title s) (Id s) path)]) = [matched (Title s) (Id s) path]).
    rewrite printed_app, printed_tests. reflexivity.
  - rewrite tested_app, Ht. simpl. change (tested (tests pre ++ [EvMatch (Id s); EvPrint (matched (Title s) (Id s) path)]) = map Id (pre ++ [s])).
    rewrite tested_app, tested_tests, map_app. reflexivity.
  - assert (E : forall (a b : event) (l1 l2 : list event),
               l1 ++ EvReadAll :: l2 ++ [a; b] = (l1 ++ EvReadAll :: l2 ++ [a]) ++ [b]).
    { intros a b l1 l2. rewrite <- app_assoc. simpl. rewrite <- app_assoc. reflexivity. }
    rewrite E. apply last_snoc.
Qed.

Lemma checkSize_ok path f sigs nr sz :
  f_stat f = Ok sz -> sz <= MAXFILESIZE -> f_readall_err f = None ->
  (2 <= length nr)%nat ->
  checkSize path f sigs nr
  = EvReadAll :: matchLoop path (normalize nr (f_content f)) sigs.
Proof.
  intros Hs Hle Hr Hn. unfold checkSize. rewrite Hs, Hr.
  replace (MAXFILESIZE <? sz) with false by (symmetry; apply Z.ltb_ge; lia).
  replace (length nr <? 2)%nat with false by (symmetry; apply Nat.ltb_ge; lia).
  reflexivity.
Qed.

Lemma checkSize_big path f sigs nr sz :
  f_stat f = Ok sz -> MAXFILESIZE < sz ->
  checkSize path f sigs nr = [EvLog (size_warning path)].
Proof.
  intros Hs Hlt. unfold checkSize. rewrite Hs.
  replace (MAXFILESIZE <? sz) with true by (symmetry; apply Z.ltb_lt; lia).
  reflexivity.
Qed.

(** The ways to [f.Stat()]: with a filter at once, without one through
    the reading of the head and the seek. *)
Lemma checkFile_reaches path f sigs nr :
  os_Open path = Ok f -> reaches_stat f = true ->
  exists pre,
    silent pre /\ logged pre = [] /\ read_all pre = false
    /\ checkFile path sigs nr = pre ++ checkSize path f sigs nr.
Proof.
  intros Ho Hr. unfold checkFile. rewrite Ho.
  unfold reaches_stat, sniffed_out, text_or_xml in Hr.
  destruct (size FFILTER =? 0)%nat.
  - simpl in Hr. unfold rewind.
    destruct (f_seek_err f); [rewrite andb_false_r in Hr; discriminate|].
    rewrite andb_true_r in Hr.
    destruct (Read512 f) as [head|e].
    + exists [EvRead (length head); EvDetect (DetectContentType head); EvSeek].
      repeat split.
      destruct (Strings.HasPrefix (DetectContentType head) "text/"); [reflexivity|].
      destruct (Strings.HasSuffix (DetectContentType head) "/xml"); [reflexivity|].
      discriminate.
    + exists [EvRead 0; EvSeek]. repeat split.
  - exists []. repeat split.
Qed.

Lemma checkFile_sniffed_out path f sigs nr :
  os_Open path = Ok f -> sniffed_out f = true ->
  exists head,
    Read512 f = Ok head
    /\ checkFile path sigs nr
       = [EvRead (length head); EvDetect (DetectContentType head)].
Proof.
  intros Ho Hs. unfold checkFile. rewrite Ho.
  unfold sniffed_out, text_or_xml in Hs.
  destruct (size FFILTER =? 0)%nat; [|discriminate]. simpl in Hs.
  destruct (Read512 f) as [head|e]; [|discriminate].
  exists head. split; [reflexivity|].
  destruct (Strings.HasPrefix (DetectContentType head) "text/"); [discriminate|].
  destruct (Strings.HasSuffix (DetectContentType head) "/xml"); [discriminate|].
  reflexivity.
Qed.

(** A file that is neither sniffed out nor at [f.Stat()] failed to seek. *)
Lemma checkFile_seek_fails path f sigs nr :
  os_Open path = Ok f -> sniffed_out f = false -> reaches_stat f = false ->
  exists e pre,
    f_seek_err f = Some e /\ silent pre /\ logged pre = [] /\ read_all pre = false
    /\ checkFile path sigs nr = pre ++ [EvLog (warning e path)].
Proof.
  intros Ho Hs Hr. unfold checkFile. rewrite Ho.
  unfold reaches_stat in Hr. rewrite Hs in Hr.
  unfold sniffed_out, text_or_xml in Hs.
  destruct (size FFILTER =? 0)%nat; [|discriminate]. simpl in Hs, Hr.
  unfold rewind. destruct (f_seek_err f) as [e|]; [|discriminate].
  exists e. destruct (Read512 f) as [head|e'].
  - exists [EvRead (length head); EvDetect (DetectContentType head); EvSeek].
    repeat split.
    destruct (Strings.HasPrefix (DetectContentType head) "text/"); [reflexivity|].
    destruct (Strings.HasSuffix (DetectContentType head) "/xml"); [reflexivity|].
    discriminate.
  - exists [EvRead 0; EvSeek]. repeat split.
Qed.

(** C2: a scan of a file prints at most one match line.  Signatures are
    tested on the normalized content in the order of the set; the first
    that matches is printed as
    [Matched: <title> (signature id = <id>): <path>] and ends the scan of
    the file; when none matches nothing is printed. *)
Theorem first_match_printed_once path sigs nr :
  (length (printed (checkFile path sigs nr)) <= 1)%nat
  /\ (forall text,
        In (EvPrint text) (checkFile path sigs nr) ->
        exists f pre s post r,
          os_Open path = Ok f /\ sigs = pre ++ s :: post
          /\ Forall (no_match (normalize nr (f_content f))) pre
          /\ Regexp s = Some r
          /\ regexp_Match r (normalize nr (f_content f)) = true
          /\ text = ("Matched: " +:+ Title s +:+ " (signature id = "
                     +:+ itoa (Id s) +:+ "): " +:+ path +:+ nl)%string
          /\ printed (checkFile path sigs nr) = [text]
          /\ tested (checkFile path sigs nr) = map Id (pre ++ [s])
          /\ last (checkFile path sigs nr) = Some (EvPrint text))
  /\ (forall f,
        os_Open path = Ok f ->
        Forall (fun s => forall r, Regexp s = Some r ->
                   regexp_Match r (normalize nr (f_content f)) = false) sigs ->
        printed (checkFile path sigs nr) = [])
  /\ (forall f sz pre s post r,
        os_Open path = Ok f -> reaches_stat f = true ->
        f_stat f = Ok sz -> sz <= MAXFILESIZE -> f_readall_err f = None ->
        (2 <= length nr)%nat ->
        sigs = pre ++ s :: post ->
        Forall (no_match (normalize nr (f_content f))) pre ->
        Regexp s = Some r ->
        regexp_Match r (normalize nr (f_content f)) = true ->
        printed (checkFile path sigs nr) = [matched (Title s) (Id s) path]
        /\ tested (checkFile path sigs nr) = map Id (pre ++ [s])).
Proof.
  repeat apply conj; cycle 3.
  - intros f sz pre s post r Ho Hre Hs Hle Hra Hn -> HF Hr Hm.
    destruct (checkFile_reaches path f (pre ++ s :: post) nr Ho Hre)
      as (pre0 & Hsil & _ & _ & E).
    rewrite E, (checkSize_ok path f _ nr sz Hs Hle Hra Hn).
    destruct (scan_first_match pre0 path _ pre s post r Hsil HF Hr Hm) as (A & B' & _).
    split; assumption.
  - destruct (checkFile_cases path sigs nr) as [[Hp _]|(f & pre & _ & [Hp _] & ->)].
    + rewrite Hp. simpl. lia.
    + rewrite printed_app, Hp. apply printed_matchLoop_le.
  - intros text Hin.
    destruct (checkFile_cases path sigs nr) as [[Hp _]|(f & pre0 & Ho & Hs & E)].
    + apply In_printed in Hin. rewrite Hp in Hin. destruct Hin.
    + rewrite E in Hin. apply in_app_or in Hin. destruct Hin as [Hin|[Hin|Hin]].
      * apply In_printed in Hin. destruct Hs as [Hp _]. rewrite Hp in Hin. destruct Hin.
      * discriminate.
      * apply matchLoop_print in Hin.
        destruct Hin as (pre & s & post & r & -> & HF & Hr & Hm & ->).
        exists f, pre, s, post, r. rewrite E.
        destruct (scan_first_match pre0 path _ pre s post r Hs HF Hr Hm) as (A & B' & C).
        repeat split; assumption.
  - intros f Ho HF.
    destruct (checkFile_cases path sigs nr) as [[Hp _]|(f' & pre0 & Ho' & [Hp _] & E)];
      [exact Hp|].
    rewrite Ho in Ho'. injection Ho' as <-.
    rewrite E, printed_app, Hp. apply (matchLoop_quiet path _ sigs HF).
Qed.

Lemma logged_app a b : logged (a ++ b) = logged a ++ logged b.
Proof. apply omap_app. Qed.

Lemma read_all_app a b : read_all (a ++ b) = read_all a || read_all b.
Proof. apply existsb_app. Qed.

Lemma sniffed_out_not_reaches f : sniffed_out f = true -> reaches_stat f = false.
Proof.
  intros H. unfold reaches_stat. rewrite H.
  unfold sniffed_out in H. destruct (size FFILTER =? 0)%nat; [reflexivity | discriminate].
Qed.

(** C6, as the code has it: a file whose size exceeds 2 MiB is never read
    whole and never tested against a signature.  It is reported with the
    size warning when [checkFile] reaches the size check; a file that the
    content type detection rejects (no filter set) is left without any
    warning.  A file of at most 2 MiB, so one of exactly 2 MiB, that
    reaches the size check is read whole and, the read succeeding,
    scanned. *)
Theorem oversize_file_never_read path sigs nr f sz :
  os_Open path = Ok f -> f_stat f = Ok sz ->
  MAXFILESIZE = 2 * 1024 * 1024
  /\ size_warning path = ("[warning] file size more than 2M: " +:+ path)%string
  /\ (MAXFILESIZE < sz ->
      read_all (checkFile path sigs nr) = false
      /\ tested (checkFile path sigs nr) = []
      /\ printed (checkFile path sigs nr) = []
      /\ (reaches_stat f = true ->
          logged (checkFile path sigs nr) = [size_warning path])
      /\ (sniffed_out f = true -> logged (checkFile path sigs nr) = [])
      /\ (sniffed_out f = false -> logged (checkFile path sigs nr) <> []))
  /\ (sz <= MAXFILESIZE -> reaches_stat f = true ->
      read_all (checkFile path sigs nr) = true
      /\ (f_readall_err f = None -> (2 <= length nr)%nat ->
          exists pre,
            silent pre
            /\ checkFile path sigs nr
               = pre ++ EvReadAll
                     :: matchLoop path (normalize nr (f_content f)) sigs)).
Proof.
  intros Ho Hs. split; [reflexivity|]. split; [reflexivity|]. split.
  - intros Hlt.
    destruct (sniffed_out f) eqn:Hsn.
    + destruct (checkFile_sniffed_out path f sigs nr Ho Hsn) as (head & _ & ->).
      rewrite (sniffed_out_not_reaches f Hsn).
      repeat split; try reflexivity; discriminate.
    + destruct (reaches_stat f) eqn:Hre.
      * destruct (checkFile_reaches path f sigs nr Ho Hre)
          as (pre & [Hp Ht] & Hl & Hra & ->).
        rewrite (checkSize_big path f sigs nr sz Hs Hlt).
        rewrite read_all_app, tested_app, printed_app, logged_app, Hp, Ht, Hl, Hra.
        repeat split; try reflexivity; discriminate.
      * destruct (checkFile_seek_fails path f sigs nr Ho Hsn Hre)
          as (e & pre & _ & [Hp Ht] & Hl & Hra & ->).
        rewrite read_all_app, tested_app, printed_app, logged_app, Hp, Ht, Hl, Hra.
        repeat split; try reflexivity; discriminate.
  - intros Hle Hre.
    destruct (checkFile_reaches path f sigs nr Ho Hre)
      as (pre & Hsil & Hl & Hra & ->).
    split.
    + rewrite read_all_app. unfold checkSize. rewrite Hs.
      replace (MAXFILESIZE <? sz) with false by (symmetry; apply Z.ltb_ge; lia).
      simpl. apply orb_true_r.
    + intros Hr Hn. exists pre. split; [exact Hsil|].
      rewrite (checkSize_ok path f sigs nr sz Hs Hle Hr Hn). reflexivity.
Qed.

Lemma no_detect_matchLoop path c sigs m :
  ~ In (EvDetect m) (matchLoop path c sigs).
Proof.
  induction sigs as [|s sigs IH]; simpl; [auto|].
  destruct (Regexp s) as [r|]; [|intros [H|[]]; discriminate].
  destruct (regexp_Match r c).
  - intros [H|[H|[]]]; discriminate.
  - intros [H|H]; [discriminate | exact (IH H)].
Qed.

Lemma no_detect_rewind path f sigs nr m :
  ~ In (EvDetect m) (rewind path f sigs nr).
Proof.
  unfold rewind, checkSize.
  destruct (f_seek_err f); [intros [H|[H|[]]]; discriminate|].
  destruct (f_stat f); [|intros [H|[H|[]]]; discriminate].
  destruct (MAXFILESIZE <? a); [intros [H|[H|[]]]; discriminate|].
  destruct (f_readall_err f); [intros [H|[H|[H|[]]]]; discriminate|].
  destruct (length nr <? 2)%nat; [intros [H|[H|[H|[]]]]; discriminate|].
  intros [H|[H|H]]; [discriminate | discriminate |].
  exact (no_detect_matchLoop _ _ _ _ H).
Qed.


End ScanFacts.

(** ** Skipping the soft signatures *)

Section SkipSoftFacts.

Context {R : Type}.
Variable regexp_Compile : string -> result R string.
Variable regexp_Match : R -> bytes -> bool.
Variable DetectContentType : bytes -> string.
Variable os_Open : string -> result file string.
Variable http_Get : string -> result bytes string.
Variable xml_Decode : bytes -> result (list entry) string.
Variable DBFILE : string.
Variable FFILTER : FileExtensions.

Local Abbreviation loadDocument := (loadDocument os_Open http_Get xml_Decode DBFILE).
Local Abbreviation readDatabase := (readDatabase regexp_Compile os_Open http_Get xml_Decode DBFILE).
Local Abbreviation compiled_as := (compiled_as regexp_Compile).
Local Abbreviation compiles := (compiles regexp_Compile).
Local Abbreviation checkFile := (checkFile regexp_Match DetectContentType os_Open FFILTER).

(** C4: under skip-soft the set [readDatabase] returns is the sequence of
    the loaded signatures whose severity is [c], in their order; that it
    may be empty is no error, and with no signature [checkFile] tests and
    prints nothing, whatever the file. *)
Theorem skip_soft_keeps_critical path es :
  loadDocument path = Ok es ->
  (forall db,
      readDatabase true path = Ok db ->
      exists full, Forall2 compiled_as es full /\ db = List.filter critical full)
  /\ (es <> [] -> Forall compiles es ->
      exists full, Forall2 compiled_as es full
                   /\ readDatabase true path = Ok (List.filter critical full))
  /\ (es <> [] -> Forall compiles es ->
      Forall (fun e => e_sever e <> "c"%string) es ->
      readDatabase true path = Ok [])
  /\ (forall s : Signature R, critical s = true <-> Type_ s = "c"%string)
  /\ (forall p nr, printed (checkFile p [] nr) = [] /\ tested (checkFile p [] nr) = []).
Proof.
  intros HL.
  destruct (skip_soft_filter regexp_Compile os_Open http_Get xml_Decode DBFILE path es HL)
    as (H1 & H2 & H3).
  repeat apply conj; try assumption.
  - intros s. apply String.eqb_eq.
  - intros p nr.
    destruct (checkFile_cases regexp_Match DetectContentType os_Open FFILTER p [] nr)
      as [H|(f & pre & _ & [Hp Ht] & ->)]; [exact H|].
    rewrite printed_app, tested_app, Hp, Ht. split; reflexivity.
Qed.

End SkipSoftFacts.

(** ** The walk *)

Section WalkFacts.

Variable FFILTER : FileExtensions.
Variable os_Tree : string -> node.

Local Abbreviation walkFn := (walkFn FFILTER).
Local Abbreviation walk := (walk FFILTER os_Tree).

Lemma walkFn_quiet p i e :
  (walkFn p i e).2 = Continue /\ closes (walkFn p i e).1 = false.
Proof.
  unfold walkFn. destruct e as [e|]; [split; reflexivity|].
  destruct i as [[]|]; try (split; reflexivity).
  destruct (negb (bool_decide (Strings.Ext p ∈ FFILTER)) && (0 <? size FFILTER)%nat);
    split; reflexivity.
Qed.

(** The callback never stops the walk and never closes the channel. *)
Lemma walkNode_quiet : forall n,
  (walkNode walkFn n).2 = Continue /\ closes (walkNode walkFn n).1 = false.
Proof.
  fix IH 1. intros [p|p rerr ch|p e].
  - apply walkFn_quiet.
  - simpl. destruct (walkFn_quiet p (Some true) rerr) as [H1 H2].
    destruct (walkFn p (Some true) rerr) as [ev1 err1]. simpl in H1, H2. subst err1.
    destruct rerr; [split; [reflexivity | exact H2]|].
    assert (G : forall l,
               let r := (fix names (l : list node) : list wevent * walkRet :=
                           match l with
                           | [] => ([], Continue)
                           | c :: rest =>
                               let '(ev, err) := walkNode walkFn c in
                               if stops c err then (ev, err)
                               else let '(ev', err') := names rest in (ev ++ ev', err')
                           end) l in
               r.2 = Continue /\ closes r.1 = false).
    { induction l as [|c rest IHl]; [split; reflexivity|].
      simpl. destruct (IH c) as [Hc1 Hc2].
      destruct (walkNode walkFn c) as [ev err]. simpl in Hc1, Hc2. subst err.
      simpl. simpl in IHl. destruct IHl as [I1 I2].
      match goal with |- context [let '(a, b) := ?x in _] => destruct x as [ev' err'] end.
      simpl in *. split; [exact I1|].
      unfold closes in *. rewrite existsb_app, Hc2, I2. reflexivity. }
    specialize (G ch). simpl in G. destruct G as [G1 G2].
    match goal with |- context [let '(a, b) := ?x in _] => destruct x as [ev2 r] end.
    simpl in *. split; [exact G1|].
    unfold closes in *. rewrite existsb_app, H2, G2. reflexivity.
  - apply walkFn_quiet.
Qed.

(** Whatever errors it meets, the walk calls [walkFn] on every node. *)
Lemma walkNode_visits : forall n,
  (walkNode walkFn n).1
  = concat (map (fun v => (walkFn v.1.1 v.1.2 v.2).1) (visits n)).
Proof.
  fix IH 1. intros [p|p rerr ch|p e].
  - cbn [walkNode visits map concat fst snd]. rewrite app_nil_r. reflexivity.
  - cbn [walkNode visits map concat fst snd].
    destruct (walkFn_quiet p (Some true) rerr) as [H1 _].
    destruct (walkFn p (Some true) rerr) as [ev1 err1].
    cbn [fst snd] in H1 |- *. subst err1.
    destruct rerr; [cbn [map concat fst]; rewrite app_nil_r; reflexivity|].
    assert (G : forall l,
               ((fix names (l : list node) : list wevent * walkRet :=
                   match l with
                   | [] => ([], Continue)
                   | c :: rest =>
                       let '(ev, err) := walkNode walkFn c in
                       if stops c err then (ev, err)
                       else let '(ev', err') := names rest in (ev ++ ev', err')
                   end) l).1
               = concat (map (fun v => (walkFn v.1.1 v.1.2 v.2).1)
                             (concat (map visits l)))).
    { induction l as [|c rest IHl]; [reflexivity|].
      cbn [map concat]. rewrite map_app, concat_app, <- (IH c), <- IHl.
      destruct (walkNode_quiet c) as [Hc _].
      destruct (walkNode walkFn c) as [ev err]. cbn [fst snd] in Hc |- *. subst err.
      cbn [stops].
      match goal with |- context [let '(a, b) := ?x in _] => destruct x as [ev' err'] end.
      reflexivity. }
    specialize (G ch).
    match goal with |- context [let '(a, b) := ?x in _] => destruct x as [ev2 r] end.
    cbn [fst] in G |- *. rewrite G. reflexivity.
  - cbn [walkNode visits map concat fst snd]. rewrite app_nil_r. reflexivity.
Qed.

Lemma walk_closes_last rootdir :
  exists evs,
    walk rootdir = evs ++ [WClose] /\ closes evs = false
    /\ evs = concat (map (fun v => (walkFn v.1.1 v.1.2 v.2).1)
                         (visits (os_Tree rootdir))).
Proof.
  unfold walk, Walk. destruct (walkNode_quiet (os_Tree rootdir)) as [H1 H2].
  pose proof (walkNode_visits (os_Tree rootdir)) as H3.
  destruct (walkNode walkFn (os_Tree rootdir)) as [evs err]. simpl in H1, H2, H3.
  subst err. exists evs. split; [reflexivity|]. split; [exact H2 | exact H3].
Qed.

End WalkFacts.

(** ** The properties on a sample site *)

Lemma first_match_printed_once_witness :
  let t := checkFile Regexp.Match Sample.DetectContentType
                     (Sample.open_in Sample.site) ∅ "shell.php" Sample.sigs normalizers in
  (length (printed t) <= 1)%nat
  /\ printed t = [("Matched: WebShell (signature id = 7): shell.php" +:+ nl)%string]
  /\ tested t = [3; 7].
Proof.
  destruct (first_match_printed_once Regexp.Match Sample.DetectContentType
              (Sample.open_in Sample.site) ∅ "shell.php" Sample.sigs normalizers)
    as (H1 & _ & _ & H4).
  split; [exact H1|].
  apply (H4 (plain_file Sample.shell) 32 [Sample.sig 3 "Dropper" "s" "base64_decode"]
            (Sample.sig 7 "WebShell" "c" "eval") [] (Sample.literal (B "eval"))).
  - reflexivity.
  - vm_compute. reflexivity.
  - reflexivity.
  - vm_compute. discriminate.
  - reflexivity.
  - simpl. lia.
  - reflexivity.
  - constructor; [|constructor].
    exists (Sample.literal (B "base64_decode")). split; [reflexivity | vm_compute; reflexivity].
  - reflexivity.
  - vm_compute. reflexivity.
Defined.

Lemma load_compiles_all_or_fails_witness :
  readDatabase Sample.Compile (Sample.open_in Sample.site) Sample.no_network
               (Sample.decodes_to Sample.broken) "malware_db.xml" false "malware_db.xml"
  = Err (CompileError 2 "(" "error parsing regexp: missing closing ): `(`").
Proof.
  destruct (load_compiles_all_or_fails Sample.Compile (Sample.open_in Sample.site)
              Sample.no_network (Sample.decodes_to Sample.broken) "malware_db.xml"
              false "malware_db.xml" Sample.broken) as (H1 & _).
  - reflexivity.
  - apply (H1 [Entry 1 "WebShell" "c" "eval"] (Entry 2 "Unbalanced" "c" "(")
              [Entry 3 "Mailer" "c" "mail"]).
    + reflexivity.
    + constructor; [|constructor]. exists (Sample.literal (B "eval")). reflexivity.
    + reflexivity.
Defined.

Lemma skip_soft_keeps_critical_witness :
  exists full,
    Forall2 (compiled_as Sample.Compile) Sample.three full
    /\ readDatabase Sample.Compile (Sample.open_in Sample.site) Sample.no_network
                    (Sample.decodes_to Sample.three) "malware_db.xml" true "malware_db.xml"
       = Ok (List.filter critical full).
Proof.
  destruct (skip_soft_keeps_critical Sample.Compile Regexp.Match Sample.DetectContentType
              (Sample.open_in Sample.site) Sample.no_network
              (Sample.decodes_to Sample.three) "malware_db.xml" ∅
              "malware_db.xml" Sample.three) as (_ & H2 & _).
  - reflexivity.
  - apply H2.
    + discriminate.
    + repeat constructor; eexists; reflexivity.
Defined.

(** The vector of the specification: of [{1 soft, 2 critical, 3 critical}]
    the signatures 2 and 3 are kept, in this order. *)
Example skip_soft_vector :
  match readDatabase Sample.Compile (Sample.open_in Sample.site) Sample.no_network
                     (Sample.decodes_to Sample.three) "malware_db.xml" true "malware_db.xml"
  with
  | Ok db => map Id db = [2; 3]
  | Err _ => False
  end.
Proof. vm_compute. reflexivity. Qed.

Lemma oversize_file_never_read_witness :
  let t := checkFile Regexp.Match Sample.DetectContentType
                     (Sample.open_in Sample.site) ∅ "big.txt" Sample.sigs normalizers in
  let t' := checkFile Regexp.Match Sample.DetectContentType
                      (Sample.open_in Sample.site) ∅ "full.txt" Sample.sigs normalizers in
  (read_all t = false /\ tested t = []
   /\ logged t = ["[warning] file size more than 2M: big.txt"%string])
  /\ read_all t' = true.
Proof.
  split.
  - destruct (oversize_file_never_read Regexp.Match Sample.DetectContentType
                (Sample.open_in Sample.site) ∅ "big.txt" Sample.sigs normalizers
                (Sample.text_file (MAXFILESIZE + 1)) (MAXFILESIZE + 1))
      as (_ & _ & H & _).
    + reflexivity.
    + vm_compute. reflexivity.
    + destruct H as (A & B' & _ & D & _); [lia|].
      split; [exact A|]. split; [exact B'|]. apply D. vm_compute. reflexivity.
  - destruct (oversize_file_never_read Regexp.Match Sample.DetectContentType
                (Sample.open_in Sample.site) ∅ "full.txt" Sample.sigs normalizers
                (Sample.text_file MAXFILESIZE) MAXFILESIZE)
      as (_ & _ & _ & H).
    + reflexivity.
    + vm_compute. reflexivity.
    + destruct H as [A _]; [lia | vm_compute; reflexivity | exact A].
Defined.

(** C6 as stated fails: with no filter set a JPEG image of 2 MiB and one
    byte is dropped after the content type detection, and nothing is
    logged. *)
Lemma oversize_image_gets_no_warning :
  f_stat Sample.big_jpeg = Ok (2 * 1024 * 1024 + 1)
  /\ Z.of_nat (length (f_content Sample.big_jpeg)) = 2 * 1024 * 1024 + 1
  /\ checkFile Regexp.Match Sample.DetectContentType
               (Sample.open_in Sample.site) ∅ "photo.jpg" Sample.sigs normalizers
     = [EvRead 512; EvDetect "image/jpeg"]
  /\ logged (checkFile Regexp.Match Sample.DetectContentType
                       (Sample.open_in Sample.site) ∅ "photo.jpg" Sample.sigs normalizers)
     = [].
Proof. split; [|split; [|split]]; vm_compute; reflexivity. Qed.



(** C5, on the code: an error met during the walk is logged under
    [[fatal] walk error:], not under [[warning]]; the walk goes on, the
    callback being called on every node, and the channel is closed last,
    once. *)
Theorem walk_error_logged_as_fatal :
  (forall FFILTER p i e,
      walkFn FFILTER p i (Some e)
      = ([WLog ("[fatal] walk error: " +:+ e)%string], Continue)
      /\ Strings.HasPrefix ("[fatal] walk error: " +:+ e) "[fatal]" = true
      /\ Strings.HasPrefix ("[fatal] walk error: " +:+ e) "[warning]" = false)
  /\ (forall FFILTER os_Tree rootdir,
        exists evs,
          walk FFILTER os_Tree rootdir = evs ++ [WClose] /\ closes evs = false
          /\ evs = concat (map (fun v => (walkFn FFILTER v.1.1 v.1.2 v.2).1)
                               (visits (os_Tree rootdir))))
  /\ walk ∅ (fun _ => Sample.www) "www"
     = [WLog "[fatal] walk error: open www/cache: permission denied";
        WSend "www/index.php"; WSend "www/lib/db.php"; WClose].
Proof.
  split; [intros; repeat split|]. split; [exact walk_closes_last|].
  vm_compute. reflexivity.
Qed.

(** ** More on the walk *)

Section WalkSends.

Variable FFILTER : FileExtensions.
Variable os_Tree : string -> node.

Local Abbreviation walkFn := (walkFn FFILTER).
Local Abbreviation walk := (walk FFILTER os_Tree).
Local Abbreviation calls :=
  (fun v : string * option bool * option string => (walkFn v.1.1 v.1.2 v.2).1).

Lemma sends_calls vs :
  sends (concat (map calls vs)) = List.filter (passes FFILTER) (omap file_of vs).
Proof.
  induction vs as [|[[p i] e] vs IH]; [reflexivity|].
  cbn [map concat]. unfold sends in *. rewrite omap_app, IH. clear IH.
  cbn [fst snd].
  destruct e as [e|], i as [[]|]; try reflexivity.
  cbn [omap file_of list_omap List.filter]. unfold walkFn, passes.
  destruct (bool_decide (Strings.Ext p ∈ FFILTER)); simpl.
  - reflexivity.
  - destruct (size FFILTER); reflexivity.
Qed.

Lemma wlogs_calls vs :
  wlogs (concat (map calls vs))
  = map (fun e => ("[fatal] walk error: " +:+ e)%string) (omap snd vs).
Proof.
  induction vs as [|[[p i] e] vs IH]; [reflexivity|].
  cbn [map concat]. unfold wlogs in *. rewrite omap_app, IH. clear IH.
  cbn [fst snd].
  destruct e as [e|], i as [[]|]; try reflexivity.
  unfold walkFn.
  destruct (negb (bool_decide (Strings.Ext p ∈ FFILTER)) && (0 <? size FFILTER)%nat);
    reflexivity.
Qed.

(** [Walk] hands the callback a [FileInfo] or an error, never neither. *)
Lemma visits_informed : forall n,
  Forall (fun v => v.1.2 = None -> v.2 <> None) (visits n).
Proof.
  fix IH 1. intros [p|p rerr ch|p e].
  - constructor; [discriminate | constructor].
  - cbn [visits]. constructor; [discriminate|].
    destruct rerr; [constructor|].
    induction ch as [|c ch IHch]; [constructor|].
    cbn [map concat]. apply Forall_app. split; [apply IH | exact IHch].
  - constructor; [intros _; discriminate | constructor].
Qed.

Lemma wpanics_calls vs :
  Forall (fun v => v.1.2 = None -> v.2 <> None) vs ->
  wpanics (concat (map calls vs)) = false.
Proof.
  induction 1 as [|[[p i] e] vs Hv _ IH]; [reflexivity|].
  cbn [map concat]. unfold wpanics in *. rewrite existsb_app, IH, orb_false_r.
  cbn [fst snd] in *.
  destruct e as [e|]; [reflexivity|].
  destruct i as [[]|]; [reflexivity | | exfalso; exact (Hv eq_refl eq_refl)].
  unfold walkFn.
  destruct (negb (bool_decide (Strings.Ext p ∈ FFILTER)) && (0 <? size FFILTER)%nat);
    reflexivity.
Qed.

Lemma sends_walk rootdir :
  sends (walk rootdir)
  = List.filter (passes FFILTER) (files_of (os_Tree rootdir)).
Proof.
  destruct (walk_closes_last FFILTER os_Tree rootdir) as (evs & -> & _ & ->).
  unfold sends. rewrite omap_app. cbn [omap list_omap]. rewrite app_nil_r.
  apply sends_calls.
Qed.

(** X1: the walk sends, in the order it meets them, the paths of the
    entries that are no directories and whose extension is in the filter,
    all of them when the filter is empty, and no other path. *)
Theorem walk_sends_filtered_files rootdir :
  sends (walk rootdir)
  = List.filter (passes FFILTER) (files_of (os_Tree rootdir)).
Proof. exact (sends_walk rootdir). Qed.

(** X2: every error of the walk (an entry whose [Lstat] fails, a directory
    that cannot be listed) gives one log line, in the order of the walk,
    and nothing else is logged. *)
Theorem walk_logs_each_error_once rootdir :
  wlogs (walk rootdir)
  = map (fun e => ("[fatal] walk error: " +:+ e)%string)
        (errors_of (os_Tree rootdir)).
Proof.
  destruct (walk_closes_last FFILTER os_Tree rootdir) as (evs & -> & _ & ->).
  unfold wlogs. rewrite omap_app. cbn [omap list_omap]. rewrite app_nil_r.
  apply wlogs_calls.
Qed.

(** X3: [walkFn] never calls [IsDir] on a nil [FileInfo]: the walk does
    not panic, whatever the tree. *)
Theorem walk_never_panics rootdir : wpanics (walk rootdir) = false.
Proof.
  destruct (walk_closes_last FFILTER os_Tree rootdir) as (evs & -> & _ & ->).
  unfold wpanics. rewrite existsb_app. cbn [existsb]. rewrite orb_false_r.
  apply wpanics_calls, visits_informed.
Qed.

End WalkSends.

(** ** The filter, from the flag to the walk *)

Lemma FileExtensions_Set_empty value :
  FileExtensions_Set ∅ value = (foldl add_ext ∅ (Strings.Split value ","), None).
Proof.
  unfold FileExtensions_Set.
  destruct (decide (0 < size (∅ : FileExtensions))%nat) as [H|H]; [|reflexivity].
  rewrite size_empty in H. lia.
Qed.

Lemma Set_empty_elem value e :
  e ∈ (FileExtensions_Set ∅ value).1 <->
  exists s, In s (Strings.Split value ",")
            /\ Strings.TrimSpace s <> EmptyString
            /\ e = with_dot (Strings.TrimSpace s).
Proof.
  rewrite FileExtensions_Set_empty. cbn [fst]. rewrite foldl_add_ext_elem.
  split; [intros [H|H]; [set_solver | exact H] | auto].
Qed.

Lemma passes_nonempty (F : FileExtensions) p :
  F <> ∅ -> passes F p = true <-> Strings.Ext p ∈ F.
Proof.
  intros Hne. unfold passes.
  assert (Hs : (size F =? 0)%nat = false).
  { apply Nat.eqb_neq. intros E. apply Hne. apply leibniz_equiv, size_empty_inv. lia. }
  rewrite Hs, orb_false_r. split.
  - intros H. apply bool_decide_eq_true in H. exact H.
  - intros H. apply bool_decide_eq_true. exact H.
Qed.

(** X4: once [--filter value] has set a filter that is not empty, the walk
    sends a path exactly when it is a file of the tree whose extension, as
    [filepath.Ext] gives it, is one of the entries of [value], trimmed and
    with its dot; so a file without extension is never sent. *)
Theorem filter_value_selects_extensions value os_Tree rootdir p :
  (FileExtensions_Set ∅ value).1 <> ∅ ->
  (In p (sends (walk (FileExtensions_Set ∅ value).1 os_Tree rootdir)) <->
   In p (files_of (os_Tree rootdir))
   /\ exists s, In s (Strings.Split value ",")
                /\ Strings.TrimSpace s <> EmptyString
                /\ Strings.Ext p = with_dot (Strings.TrimSpace s))
  /\ (In p (sends (walk (FileExtensions_Set ∅ value).1 os_Tree rootdir)) ->
      first_is_dot (Strings.Ext p) = true).
Proof.
  intros Hne. rewrite sends_walk, filter_In, (passes_nonempty _ p Hne), Set_empty_elem.
  split; [reflexivity|].
  intros (_ & s & _ & _ & ->). apply with_dot_dotted.
Qed.

Lemma filter_value_selects_extensions_witness :
  In "www/index.php"%string
     (sends (walk (FileExtensions_Set ∅ "inc, php").1 (fun _ => Sample.www) "www")).
Proof.
  apply (filter_value_selects_extensions "inc, php" (fun _ => Sample.www) "www"
           "www/index.php").
  - intros E.
    assert (H : ".php"%string ∈ (FileExtensions_Set ∅ "inc, php").1).
    { apply Set_empty_elem. exists " php"%string.
      split; [right; left; reflexivity|]. split; [discriminate | reflexivity]. }
    rewrite E in H. exact (not_elem_of_empty _ H).
  - split.
    + left. reflexivity.
    + exists " php"%string. split; [right; left; reflexivity|].
      split; [discriminate | reflexivity].
Defined.

(** X5: on an empty filter [Set] never fails; the filter stays empty
    exactly when every entry of the value is blank, and then a later [Set]
    is accepted as if it were the first. *)
Theorem blank_value_leaves_filter_unset value :
  (FileExtensions_Set ∅ value).2 = None
  /\ ((FileExtensions_Set ∅ value).1 = ∅ <->
      forall s, In s (Strings.Split value ",") -> Strings.TrimSpace s = EmptyString)
  /\ ((forall s, In s (Strings.Split value ",") -> Strings.TrimSpace s = EmptyString) ->
      forall value',
        FileExtensions_Set (FileExtensions_Set ∅ value).1 value'
        = FileExtensions_Set ∅ value').
Proof.
  assert (Hiff : (FileExtensions_Set ∅ value).1 = ∅ <->
                 forall s, In s (Strings.Split value ",") ->
                           Strings.TrimSpace s = EmptyString).
  { split.
    - intros E s Hs.
      destruct (string_dec (Strings.TrimSpace s) EmptyString) as [H|H]; [exact H|].
      exfalso.
      assert (Hin : with_dot (Strings.TrimSpace s) ∈ (FileExtensions_Set ∅ value).1)
        by (apply Set_empty_elem; exists s; auto).
      rewrite E in Hin. exact (not_elem_of_empty _ Hin).
    - intros Hall. apply set_eq. intros e. rewrite Set_empty_elem. split.
      + intros (s & Hs & Hn & _). exfalso. exact (Hn (Hall s Hs)).
      + intros H. exfalso. exact (not_elem_of_empty _ H). }
  split; [rewrite FileExtensions_Set_empty; reflexivity|].
  split; [exact Hiff|].
  intros Hall value'. apply Hiff in Hall. rewrite Hall. reflexivity.
Qed.

Lemma blank_value_leaves_filter_unset_witness :
  FileExtensions_Set (FileExtensions_Set ∅ " ,, ").1 "php"
  = FileExtensions_Set ∅ "php".
Proof.
  destruct (blank_value_leaves_filter_unset " ,, ") as (_ & _ & H).
  apply H. intros s Hs. simpl in Hs.
  destruct Hs as [<-|[<-|[<-|[]]]]; reflexivity.
Defined.

(** ** More on the loading of the database *)

Section DatabaseMore.

Context {R : Type}.
Variable regexp_Compile : string -> result R string.
Variable os_Open : string -> result file string.
Variable http_Get : string -> result bytes string.
Variable xml_Decode : bytes -> result (list entry) string.
Variable DBFILE : string.

Local Abbreviation loadDocument := (loadDocument os_Open http_Get xml_Decode DBFILE).
Local Abbreviation readDatabase := (readDatabase regexp_Compile os_Open http_Get xml_Decode DBFILE).
Local Abbreviation compiled_as := (compiled_as regexp_Compile).

Lemma compiled_as_ids es (full : list (Signature R)) :
  Forall2 compiled_as es full ->
  map Id full = map e_id es /\ length full = length es.
Proof.
  induction 1 as [|e s es full (r & _ & ->) _ [IH1 IH2]]; [split; reflexivity|].
  simpl. rewrite IH1, IH2. split; reflexivity.
Qed.

(** X6: a document without any signature is refused, with or without
    skip-soft; and without skip-soft a set that is returned is never empty:
    it has one signature for each entry of the document, with the same ids
    in the same order. *)
Theorem loaded_set_is_never_empty path :
  (forall SKIPSOFT, loadDocument path = Ok [] ->
                    readDatabase SKIPSOFT path = Err NoSignatures)
  /\ (forall db, readDatabase false path = Ok db ->
                 db <> []
                 /\ exists es, loadDocument path = Ok es
                               /\ length db = length es
                               /\ map Id db = map e_id es).
Proof.
  split.
  - intros SKIPSOFT HL. unfold readDatabase. rewrite HL. reflexivity.
  - intros db Hdb.
    destruct (loadDocument path) as [es|e] eqn:HL;
      [|unfold readDatabase in Hdb; rewrite HL in Hdb; discriminate].
    destruct (readDatabase_success regexp_Compile os_Open http_Get xml_Decode DBFILE
                false path es db HL Hdb) as (Hne & full & HF & ->).
    destruct (compiled_as_ids es full HF) as [Hid Hlen].
    split.
    + intros ->. destruct es; [congruence | discriminate].
    + exists es. auto.
Qed.

(** X8: skip-soft changes nothing to whether the load succeeds: the same
    error comes with and without it, and the set it gives is the set given
    without it, reduced to the signatures of severity [c]. *)
Theorem skip_soft_filters_the_plain_load path :
  (forall e, readDatabase true path = Err e <-> readDatabase false path = Err e)
  /\ (forall db, readDatabase false path = Ok db ->
                 readDatabase true path = Ok (List.filter critical db)).
Proof.
  unfold readDatabase.
  destruct (loadDocument path) as [es|e0]; [|split; [reflexivity | discriminate]].
  destruct (length (map decoded es) =? 0)%nat; [split; [reflexivity | discriminate]|].
  destruct (compileFrom regexp_Compile 0 (map decoded es) (map decoded es)) as [out|e0];
    [|split; [reflexivity | discriminate]].
  split.
  - intros e. split; discriminate.
  - intros db [= <-]. rewrite critSignatures_filter. reflexivity.
Qed.

End DatabaseMore.

Lemma loaded_set_is_never_empty_witness :
  readDatabase Sample.Compile (Sample.open_in Sample.site) Sample.no_network
               (Sample.decodes_to []) "malware_db.xml" true "malware_db.xml"
  = Err NoSignatures.
Proof.
  destruct (loaded_set_is_never_empty Sample.Compile (Sample.open_in Sample.site)
              Sample.no_network (Sample.decodes_to []) "malware_db.xml"
              "malware_db.xml") as [H _].
  apply H. reflexivity.
Defined.

Lemma skip_soft_filters_the_plain_load_witness :
  readDatabase Sample.Compile (Sample.open_in Sample.site) Sample.no_network
               (Sample.decodes_to Sample.three) "malware_db.xml" true "malware_db.xml"
  = Ok (List.filter critical
          [Sample.sig 1 "Dropper" "s" "base64_decode";
           Sample.sig 2 "WebShell" "c" "eval"; Sample.sig 3 "Mailer" "c" "mail"]).
Proof.
  destruct (skip_soft_filters_the_plain_load Sample.Compile (Sample.open_in Sample.site)
              Sample.no_network (Sample.decodes_to Sample.three) "malware_db.xml"
              "malware_db.xml") as [_ H].
  apply H. vm_compute. reflexivity.
Defined.

(** X7: for a path that is a URL, [readDatabase] fetches [DBFILE], whatever
    the URL it is given, and opens no file; for any other path it opens the
    path and neither [DBFILE] nor the network plays a part. *)
Theorem url_load_fetches_DBFILE :
  forall (R : Type) (regexp_Compile : string -> result R string)
         (xml_Decode : bytes -> result (list entry) string) SKIPSOFT,
    (forall os_Open os_Open' http_Get DBFILE path path',
        is_url path = true -> is_url path' = true ->
        readDatabase regexp_Compile os_Open http_Get xml_Decode DBFILE SKIPSOFT path
        = readDatabase regexp_Compile os_Open' http_Get xml_Decode DBFILE SKIPSOFT path')
    /\ (forall os_Open http_Get DBFILE path e,
          is_url path = true -> http_Get DBFILE = Err e ->
          readDatabase regexp_Compile os_Open http_Get xml_Decode DBFILE SKIPSOFT path
          = Err (FetchError DBFILE e))
    /\ (forall os_Open http_Get http_Get' DBFILE DBFILE' path,
          is_url path = false ->
          readDatabase regexp_Compile os_Open http_Get xml_Decode DBFILE SKIPSOFT path
          = readDatabase regexp_Compile os_Open http_Get' xml_Decode DBFILE' SKIPSOFT path).
Proof.
  intros R regexp_Compile xml_Decode SKIPSOFT. unfold is_url. repeat apply conj.
  - intros os_Open os_Open' http_Get DBFILE path path' H H'.
    unfold readDatabase, loadDocument. rewrite H, H'. reflexivity.
  - intros os_Open http_Get DBFILE path e H He.
    unfold readDatabase, loadDocument. rewrite H, He. reflexivity.
  - intros os_Open http_Get http_Get' DBFILE DBFILE' path H.
    unfold readDatabase, loadDocument. rewrite H. reflexivity.
Qed.

Lemma url_load_fetches_DBFILE_witness :
  readDatabase Sample.Compile (Sample.open_in Sample.site) Sample.no_network
               (Sample.decodes_to Sample.three) "malware_db.xml" false
               "https://example.org/db.xml"
  = Err (FetchError "malware_db.xml" "dial tcp: network is unreachable").
Proof.
  destruct (url_load_fetches_DBFILE re Sample.Compile (Sample.decodes_to Sample.three)
              false) as (_ & H & _).
  apply H; reflexivity.
Defined.

(** ** More on the scan of a file *)

Section ScanMore.

Context {R : Type}.
Variable regexp_Match : R -> bytes -> bool.
Variable DetectContentType : bytes -> string.
Variable os_Open : string -> result file string.
Variable FFILTER : FileExtensions.

Local Abbreviation matchLoop := (matchLoop regexp_Match).
Local Abbreviation checkSize := (checkSize regexp_Match).
Local Abbreviation rewind := (rewind regexp_Match).
Local Abbreviation checkFile := (checkFile regexp_Match DetectContentType os_Open FFILTER).
Local Abbreviation worker := (worker regexp_Match DetectContentType os_Open FFILTER).

Lemma logged_matchLoop path c sigs : logged (matchLoop path c sigs) = [].
Proof.
  induction sigs as [|s sigs IH]; [reflexivity|]. simpl.
  destruct (Regexp s) as [r|]; [|reflexivity].
  destruct (regexp_Match r c); [reflexivity | exact IH].
Qed.

Lemma one_warning_cons e t : mute e = true -> one_warning t -> one_warning (e :: t).
Proof.
  intros He [H|(w & H & Hp & Hs1 & Hs2)].
  - left. destruct e; try discriminate; exact H.
  - right. exists w. unfold silent.
    destruct e; try discriminate; repeat split; assumption.
Qed.

Lemma HasPrefix_append p s : Strings.HasPrefix (p +:+ s) p = true.
Proof.
  unfold Strings.HasPrefix. induction p as [|a p IH]; simpl.
  - destruct s; reflexivity.
  - destruct (ascii_dec a a) as [_|H]; [exact IH | congruence].
Qed.

Lemma one_warning_warning e path : one_warning [EvLog (warning e path)].
Proof.
  right. exists (warning e path). split; [reflexivity|].
  split; [|split; reflexivity].
  apply (HasPrefix_append "[warning] " (e +:+ ": " +:+ path)).
Qed.

Lemma one_warning_checkSize path f sigs nr : one_warning (checkSize path f sigs nr).
Proof.
  unfold checkSize.
  destruct (f_stat f) as [sz|e]; [|apply one_warning_warning].
  destruct (MAXFILESIZE <? sz).
  - right. exists (size_warning path). repeat split.
  - apply one_warning_cons; [reflexivity|].
    destruct (f_readall_err f); [apply one_warning_warning|].
    destruct (length nr <? 2)%nat; [left; reflexivity|].
    left. apply logged_matchLoop.
Qed.

Lemma one_warning_rewind path f sigs nr : one_warning (rewind path f sigs nr).
Proof.
  unfold rewind. apply one_warning_cons; [reflexivity|].
  destruct (f_seek_err f); [apply one_warning_warning | apply one_warning_checkSize].
Qed.

Lemma one_warning_checkFile path sigs nr : one_warning (checkFile path sigs nr).
Proof.
  unfold checkFile.
  destruct (os_Open path) as [f|e]; [|apply one_warning_warning].
  destruct (size FFILTER =? 0)%nat; [|apply one_warning_checkSize].
  destruct (Read512 f) as [head|e].
  - do 2 (apply one_warning_cons; [reflexivity|]).
    destruct (Strings.HasPrefix (DetectContentType head) "text/");
      [apply one_warning_rewind|].
    destruct (Strings.HasSuffix (DetectContentType head) "/xml");
      [apply one_warning_rewind | left; reflexivity].
  - apply one_warning_cons; [reflexivity | apply one_warning_rewind].
Qed.

(** X9: [checkFile] logs at most one line for a file; the line begins with
    [[warning] ], and a file that is logged gives no match line and has no
    signature tested. *)
Theorem file_logged_once_and_then_unmatched path sigs nr :
  (length (logged (checkFile path sigs nr)) <= 1)%nat
  /\ (forall line,
        In line (logged (checkFile path sigs nr)) ->
        Strings.HasPrefix line "[warning] " = true
        /\ printed (checkFile path sigs nr) = []
        /\ tested (checkFile path sigs nr) = []).
Proof.
  destruct (one_warning_checkFile path sigs nr) as [H|(w & H & Hp & Hs1 & Hs2)];
    rewrite H.
  - split; [simpl; lia | intros line []].
  - split; [simpl; lia|]. intros line [<-|[]]. auto.
Qed.

Lemma panics_matchLoop path c sigs :
  Forall compiled sigs -> panics (matchLoop path c sigs) = false.
Proof.
  induction 1 as [|s sigs Hs _ IH]; [reflexivity|]. simpl.
  destruct (Regexp s) as [r|] eqn:E; [|exfalso; exact (Hs E)].
  destruct (regexp_Match r c); [reflexivity | exact IH].
Qed.

Lemma panics_checkSize path f sigs nr :
  Forall compiled sigs -> (2 <= length nr)%nat ->
  panics (checkSize path f sigs nr) = false.
Proof.
  intros Hs Hn. unfold checkSize.
  destruct (f_stat f) as [sz|e]; [|reflexivity].
  destruct (MAXFILESIZE <? sz); [reflexivity|].
  destruct (f_readall_err f); [reflexivity|].
  replace (length nr <? 2)%nat with false by (symmetry; apply Nat.ltb_ge; lia).
  apply (panics_matchLoop path _ sigs Hs).
Qed.

Lemma panics_checkFile path sigs nr :
  Forall compiled sigs -> (2 <= length nr)%nat ->
  panics (checkFile path sigs nr) = false.
Proof.
  intros Hs Hn. pose proof (fun f => panics_checkSize path f sigs nr Hs Hn) as HC.
  assert (HR : forall f, panics (rewind path f sigs nr) = false).
  { intros f. unfold rewind. destruct (f_seek_err f); [reflexivity | apply HC]. }
  unfold checkFile.
  destruct (os_Open path) as [f|e]; [|reflexivity].
  destruct (size FFILTER =? 0)%nat; [|apply HC].
  destruct (Read512 f) as [head|e]; [|apply HR].
  destruct (Strings.HasPrefix (DetectContentType head) "text/"); [apply HR|].
  destruct (Strings.HasSuffix (DetectContentType head) "/xml"); [apply HR | reflexivity].
Qed.

(** X10: given signatures that all carry a compiled expression and at
    least two normalizers, [checkFile] does not panic on any path: no nil
    [Regexp] is used and the slices [nr[:2]] and [nr[2:]] are in range. *)
Theorem compiled_signatures_never_panic path sigs nr :
  Forall compiled sigs -> (2 <= length nr)%nat ->
  panics (checkFile path sigs nr) = false.
Proof. exact (panics_checkFile path sigs nr). Qed.

Lemma existsb_matchLoop (q : event -> bool) path c sigs :
  (forall i, q (EvMatch i) = false) -> (forall x, q (EvPrint x) = false) ->
  q EvPanic = false ->
  existsb q (matchLoop path c sigs) = false.
Proof.
  intros Hm Hp Hk. induction sigs as [|s sigs IH]; [reflexivity|]. simpl.
  destruct (Regexp s) as [r|]; [|simpl; rewrite Hk; reflexivity].
  simpl. rewrite Hm. destruct (regexp_Match r c); [simpl; rewrite Hp; reflexivity | exact IH].
Qed.

Lemma existsb_checkSize (q : event -> bool) path f sigs nr :
  (forall i, q (EvMatch i) = false) -> (forall x, q (EvPrint x) = false) ->
  q EvPanic = false -> q EvReadAll = false -> (forall x, q (EvLog x) = false) ->
  existsb q (checkSize path f sigs nr) = false.
Proof.
  intros Hm Hp Hk Hr Hl. unfold checkSize.
  destruct (f_stat f) as [sz|e]; [|simpl; rewrite Hl; reflexivity].
  destruct (MAXFILESIZE <? sz); [simpl; rewrite Hl; reflexivity|].
  simpl. rewrite Hr.
  destruct (f_readall_err f); [simpl; rewrite Hl; reflexivity|].
  destruct (length nr <? 2)%nat; [simpl; rewrite Hk; reflexivity|].
  apply existsb_matchLoop; assumption.
Qed.

Lemma no_head_rewind path f sigs nr :
  existsb head_event (rewind path f sigs nr) = false.
Proof.
  unfold rewind. simpl. destruct (f_seek_err f); [reflexivity|].
  apply existsb_checkSize; reflexivity.
Qed.

Lemma Read512_length f head : Read512 f = Ok head -> (length head <= 512)%nat.
Proof.
  unfold Read512. destruct (f_read_err f); [discriminate|].
  destruct (f_content f) as [|c l]; [discriminate|].
  intros [= <-]. change (length (take 512 (c :: l)) <= 512)%nat.
  rewrite length_take. lia.
Qed.

(** X11: the content type is only looked at while no filter is set: with a
    filter [checkFile] neither reads the head of the file, nor detects its
    type, nor seeks; without one it reads the head once, 512 bytes at
    most. *)
Theorem filter_turns_detection_off path sigs nr :
  (size FFILTER <> 0%nat -> existsb sniffing (checkFile path sigs nr) = false)
  /\ (forall n, In (EvRead n) (checkFile path sigs nr) ->
                (n <= 512)%nat /\ size FFILTER = 0%nat).
Proof.
  split.
  - intros Hne. unfold checkFile.
    destruct (os_Open path) as [f|e]; [|reflexivity].
    replace (size FFILTER =? 0)%nat with false by (symmetry; apply Nat.eqb_neq; exact Hne).
    apply existsb_checkSize; reflexivity.
  - intros n. unfold checkFile.
    destruct (os_Open path) as [f|e]; [|intros [H|[]]; discriminate].
    assert (HR : ~ In (EvRead n) (rewind path f sigs nr)).
    { intros H. pose proof (no_head_rewind path f sigs nr) as E.
      assert (X : existsb head_event (rewind path f sigs nr) = true)
        by (apply existsb_exists; exists (EvRead n); split; [exact H | reflexivity]).
      rewrite E in X. discriminate. }
    destruct (size FFILTER =? 0)%nat eqn:Ez.
    + apply Nat.eqb_eq in Ez.
      destruct (Read512 f) as [head|e] eqn:Er.
      * intros [H|[H|H]]; [| discriminate |].
        -- injection H as <-. split; [exact (Read512_length f head Er) | exact Ez].
        -- exfalso.
           destruct (Strings.HasPrefix (DetectContentType head) "text/");
             [exact (HR H)|].
           destruct (Strings.HasSuffix (DetectContentType head) "/xml");
             [exact (HR H) | destruct H].
      * intros [H|H]; [injection H as <-; split; [lia | exact Ez] | destruct (HR H)].
    + intros H. exfalso.
      assert (X : existsb head_event (checkSize path f sigs nr) = true)
        by (apply existsb_exists; exists (EvRead n); split; [exact H | reflexivity]).
      rewrite existsb_checkSize in X by reflexivity. discriminate.
Qed.

Lemma printed_checkFile_le path sigs nr :
  (length (printed (checkFile path sigs nr)) <= 1)%nat.
Proof.
  destruct (checkFile_cases regexp_Match DetectContentType os_Open FFILTER path sigs nr)
    as [[Hp _]|(f & pre & _ & [Hp _] & ->)].
  - rewrite Hp. simpl. lia.
  - rewrite printed_app, Hp. apply printed_matchLoop_le.
Qed.


End ScanMore.

Lemma file_logged_once_and_then_unmatched_witness :
  Strings.HasPrefix "[warning] open nope.php: no such file or directory: nope.php"
                    "[warning] " = true
  /\ printed (checkFile Regexp.Match Sample.DetectContentType
                        (Sample.open_in Sample.site) ∅ "nope.php" Sample.sigs normalizers)
     = []
  /\ tested (checkFile Regexp.Match Sample.DetectContentType
                       (Sample.open_in Sample.site) ∅ "nope.php" Sample.sigs normalizers)
     = [].
Proof.
  destruct (file_logged_once_and_then_unmatched Regexp.Match Sample.DetectContentType
              (Sample.open_in Sample.site) ∅ "nope.php" Sample.sigs normalizers)
    as [_ H].
  apply H. left. reflexivity.
Defined.

Lemma compiled_signatures_never_panic_witness :
  panics (checkFile Regexp.Match Sample.DetectContentType
                    (Sample.open_in Sample.site) ∅ "shell.php" Sample.sigs normalizers)
  = false.
Proof.
  apply compiled_signatures_never_panic.
  - repeat constructor; discriminate.
  - simpl. lia.
Defined.

Lemma filter_turns_detection_off_witness :
  existsb sniffing
          (checkFile Regexp.Match Sample.DetectContentType
                     (Sample.open_in Sample.site) {[ ".jpg"%string ]} "photo.jpg"
                     Sample.sigs normalizers)
  = false.
Proof.
  destruct (filter_turns_detection_off Regexp.Match Sample.DetectContentType
              (Sample.open_in Sample.site) {[ ".jpg"%string ]} "photo.jpg"
              Sample.sigs normalizers) as [H _].
  apply H. rewrite size_singleton. discriminate.
Defined.


(** ** main *)

Section MainFacts.

Context {R : Type}.
Variable regexp_Compile : string -> result R string.
Variable regexp_Match : R -> bytes -> bool.
Variable DetectContentType : bytes -> string.
Variable os_Open : string -> result file string.
Variable http_Get : string -> result bytes string.
Variable xml_Decode : bytes -> result (list entry) string.
Variable DBFILE : string.
Variable FFILTER : FileExtensions.
Variable SKIPSOFT : bool.
Variable os_Tree : string -> node.
Variable MAXPROCS : Z.
Variable ROOTDIR : string.

Local Abbreviation readDatabase :=
  (readDatabase regexp_Compile os_Open http_Get xml_Decode DBFILE SKIPSOFT).
Local Abbreviation main :=
  (main regexp_Compile os_Open http_Get xml_Decode DBFILE FFILTER SKIPSOFT os_Tree
        MAXPROCS ROOTDIR).
Local Abbreviation checkFile := (checkFile regexp_Match DetectContentType os_Open FFILTER).

Lemma compiled_as_compiled es (full : list (Signature R)) :
  Forall2 (compiled_as regexp_Compile) es full -> Forall compiled full.
Proof.
  induction 1 as [|e s es full (r & _ & ->) _ IH]; constructor; [discriminate | exact IH].
Qed.

Lemma readDatabase_compiled path db :
  readDatabase path = Ok db -> Forall compiled db.
Proof.
  intros Hdb.
  destruct (loadDocument os_Open http_Get xml_Decode DBFILE path) as [es|e] eqn:HL;
    [|unfold readDatabase in Hdb; rewrite HL in Hdb; discriminate].
  destruct (readDatabase_success regexp_Compile os_Open http_Get xml_Decode DBFILE
              SKIPSOFT path es db HL Hdb) as (_ & full & HF & ->).
  apply compiled_as_compiled in HF.
  destruct SKIPSOFT; [|exact HF].
  apply List.Forall_forall. intros s Hs. apply filter_In in Hs.
  rewrite List.Forall_forall in HF. apply HF, Hs.
Qed.

(** X12: [main] ends with a fatal error exactly when the database does not
    load, and then starts nothing.  Otherwise it starts at least one
    worker, as many as [-n] asks for when that is one or more, on the
    database it loaded from [DBFILE] and the four normalizers; on these
    arguments no call of [checkFile] panics, whatever the path. *)
Theorem main_starts_workers_on_a_loaded_database :
  (forall e, main = FatalDatabase e <-> readDatabase DBFILE = Err e)
  /\ (forall e, main <> FatalNormalizers e)
  /\ (forall sigs nr n producer,
        main = Started sigs nr n producer ->
        1 <= n /\ (1 <= MAXPROCS -> n = MAXPROCS)
        /\ readDatabase DBFILE = Ok sigs
        /\ nr = normalizers
        /\ producer = walk FFILTER os_Tree ROOTDIR
        /\ forall path, panics (checkFile path sigs nr) = false).
Proof.
  unfold main, compileNormalizers.
  destruct (readDatabase DBFILE) as [db|e0] eqn:E.
  - split; [intros e; split; discriminate|]. split; [discriminate|].
    intros sigs nr n producer [= <- <- <- <-].
    split; [destruct (MAXPROCS <? 1) eqn:L; [lia | apply Z.ltb_ge in L; lia]|].
    split; [intros H; replace (MAXPROCS <? 1) with false
                        by (symmetry; apply Z.ltb_ge; lia); reflexivity|].
    split; [reflexivity|]. split; [reflexivity|]. split; [reflexivity|].
    intros path.
    apply (panics_checkFile regexp_Match DetectContentType os_Open FFILTER path db normalizers).
    + exact (readDatabase_compiled DBFILE db E).
    + simpl. lia.
  - split; [intros e; split; intros [= <-]; reflexivity|].
    split; discriminate.
Qed.

End MainFacts.

Lemma main_starts_workers_on_a_loaded_database_witness :
  panics (checkFile Regexp.Match Sample.DetectContentType (Sample.open_in Sample.site) ∅
                    "shell.php"
                    [Sample.sig 2 "WebShell" "c" "eval"; Sample.sig 3 "Mailer" "c" "mail"]
                    normalizers)
  = false.
Proof.
  destruct (main_starts_workers_on_a_loaded_database Sample.Compile Regexp.Match
              Sample.DetectContentType (Sample.open_in Sample.site) Sample.no_network
              (Sample.decodes_to Sample.three) "malware_db.xml" ∅ true
              (fun _ => Sample.www) 0 "www") as (_ & _ & H).
  destruct (H [Sample.sig 2 "WebShell" "c" "eval"; Sample.sig 3 "Mailer" "c" "mail"]
              normalizers 1
              (walk ∅ (fun _ => Sample.www) "www")) as (_ & _ & _ & _ & _ & G).
  - vm_compute. reflexivity.
  - exact (G "shell.php"%string).
Defined.

(** ** More on the content normalizer *)

Lemma search_matchAt r s : forall a b,
  search r s 0 = Some (a, b) -> matchAt r (drop a s) = Some (drop b s).
Proof.
  induction s as [|c s IH]; intros a b; simpl.
  - destruct (matchAt r []) as [rest|] eqn:E; [|discriminate].
    intros [= <- <-]. simpl. rewrite E.
    apply matchAt_suffix in E. destruct E as (m & -> & _).
    destruct m; reflexivity.
  - destruct (matchAt r (c :: s)) as [rest|] eqn:E.
    + intros [= <- <-]. rewrite drop_0, E.
      apply matchAt_suffix in E. destruct E as (m & -> & Hm).
      rewrite length_drop. f_equal. f_equal. simpl in *. lia.
    + rewrite search_shift.
      destruct (search r s 0) as [[a' b']|] eqn:E'; [|discriminate].
      intros [= <- <-]. simpl. apply IH. reflexivity.
Qed.

(** Replacing every match by something no longer than the match does not
    lengthen the input. *)
Lemma ReplaceAllFunc_length r repl :
  consuming r ->
  (forall s rest, matchAt r s = Some rest ->
                  (length (repl (take (length s - length rest) s))
                   <= length s - length rest)%nat) ->
  forall src, (length (ReplaceAllFunc r src repl) <= length src)%nat.
Proof.
  intros Hc Hrepl src.
  remember (length src) as n eqn:Hn. revert src Hn.
  induction n as [n IH] using lt_wf_ind. intros src Hn.
  destruct (doExecute r src 0) as [[a0 a1]|] eqn:E.
  - rewrite (ReplaceAllFunc_step r repl Hc src a0 a1 E).
    unfold doExecute in E. rewrite drop_0 in E.
    pose proof (search_bounds _ _ _ _ E) as Hb.
    pose proof (search_consuming _ _ Hc _ _ E) as Hlt.
    pose proof (search_matchAt _ _ _ _ E) as Hm.
    apply Hrepl in Hm. rewrite !length_drop in Hm.
    replace (length src - a0 - (length src - a1))%nat with (a1 - a0)%nat in Hm by lia.
    fold (slice src a0 a1) in Hm.
    rewrite !length_app, length_take.
    pose proof (IH (length (drop a1 src)) ltac:(rewrite length_drop; lia)
                   (drop a1 src) eq_refl) as IH'.
    rewrite length_drop in IH'. lia.
  - rewrite (ReplaceAllFunc_none r repl src E). lia.
Qed.

Lemma matchAt_hex_inv s rest :
  matchAt re_hex s = Some rest ->
  exists x h t,
    s = "\"%char :: x :: h :: t /\ x_or_X x = true /\ hex_class h = true
    /\ (rest = t \/ exists h2, hex_class h2 = true /\ t = h2 :: rest).
Proof.
  unfold matchAt, re_hex, Rep12, Quest.
  destruct s as [|b [|x [|h t]]]; cbn -[is_byte either hex_class].
  - discriminate.
  - destruct (is_byte "\" b); discriminate.
  - destruct (is_byte "\" b); [|discriminate].
    destruct (either (is_byte "x") (is_byte "X") x); discriminate.
  - destruct (is_byte "\" b) eqn:Eb; [|discriminate].
    destruct (either (is_byte "x") (is_byte "X") x) eqn:Ex; [|discriminate].
    destruct (hex_class h) eqn:Eh; [|discriminate].
    apply Ascii.eqb_eq in Eb. subst b.
    intros H. exists x, h, t. repeat split; try assumption.
    destruct t as [|c t']; [left; congruence|].
    destruct (hex_class c) eqn:Ec.
    + right. exists c. split; [exact Ec | congruence].
    + left. congruence.
Qed.

Lemma matchAt_octal_inv s rest :
  matchAt re_octal s = Some rest ->
  exists d1 t,
    s = "\"%char :: d1 :: t /\ digit_class d1 = true
    /\ (rest = t
        \/ exists d2 t2,
             t = d2 :: t2 /\ digit_class d2 = true
             /\ (rest = t2 \/ exists d3, digit_class d3 = true /\ t2 = d3 :: rest)).
Proof.
  unfold matchAt, re_octal, Rep13, Quest.
  destruct s as [|b [|d1 t]]; cbn -[is_byte digit_class].
  - discriminate.
  - destruct (is_byte "\" b); discriminate.
  - destruct (is_byte "\" b) eqn:Eb; [|discriminate].
    destruct (digit_class d1) eqn:E1; [|discriminate].
    apply Ascii.eqb_eq in Eb. subst b.
    intros H. exists d1, t. repeat split; try assumption.
    destruct t as [|d2 t2]; [left; congruence|].
    destruct (digit_class d2) eqn:E2; [|left; congruence].
    right. exists d2, t2. repeat split; try assumption.
    destruct t2 as [|d3 t3]; [left; congruence|].
    destruct (digit_class d3) eqn:E3; [|left; congruence].
    right. exists d3. split; [exact E3 | congruence].
Qed.

(** A span of step 3 or 4 decodes to one byte at most. *)
Lemma hex_span_shrinks s rest :
  matchAt re_hex s = Some rest ->
  (length (unquoteStr (take (length s - length rest) s)) <= 1)%nat
  /\ (3 <= length s - length rest)%nat.
Proof.
  intros H. apply matchAt_hex_inv in H.
  destruct H as (x & h & t & -> & Hx & Hh & [->|(h2 & H2 & ->)]).
  - replace (length ("\"%char :: x :: h :: t) - length t)%nat with 3%nat by (simpl; lia).
    cbn [take firstn]. rewrite take_0, (unquote_hex1 x h Hx Hh). simpl. lia.
  - replace (length ("\"%char :: x :: h :: h2 :: rest) - length rest)%nat with 4%nat
      by (simpl; lia).
    cbn [take firstn]. rewrite take_0, (unquote_hex2 x h h2 Hx Hh H2).
    destruct (is_byte x "x"); simpl; lia.
Qed.

Lemma octal_span_shrinks s rest :
  matchAt re_octal s = Some rest ->
  (length (unquoteStr (take (length s - length rest) s)) <= 1)%nat
  /\ (2 <= length s - length rest)%nat.
Proof.
  intros H. apply matchAt_octal_inv in H.
  destruct H as (d1 & t & -> & H1 & [->|(d2 & t2 & -> & H2 & [->|(d3 & H3 & ->)])]).
  - replace (length ("\"%char :: d1 :: t) - length t)%nat with 2%nat by (simpl; lia).
    cbn [take firstn]. rewrite take_0, (unquote_octal1 d1 H1). simpl. lia.
  - replace (length ("\"%char :: d1 :: d2 :: t2) - length t2)%nat with 3%nat
      by (simpl; lia).
    cbn [take firstn]. rewrite take_0, (unquote_octal2 d1 d2 H1 H2). simpl. lia.
  - replace (length ("\"%char :: d1 :: d2 :: d3 :: rest) - length rest)%nat with 4%nat
      by (simpl; lia).
    cbn [take firstn]. rewrite take_0, (unquote_octal3 d1 d2 d3 H1 H2 H3).
    destruct (octal_ok d1 d2 d3); simpl; lia.
Qed.

(** X13: normalization never makes the content longer: the first two steps
    delete, and every escape span of the last two, two bytes long or more,
    is replaced by one byte at most. *)
Theorem normalize_never_grows (c : bytes) :
  (length (normalize normalizers c) <= length c)%nat
  /\ (forall s rest, matchAt re_hex s = Some rest ->
        (length (unquoteStr (take (length s - length rest) s)) <= 1)%nat)
  /\ (forall s rest, matchAt re_octal s = Some rest ->
        (length (unquoteStr (take (length s - length rest) s)) <= 1)%nat).
Proof.
  split; [|split; [intros s rest H; apply (hex_span_shrinks s rest H)
                  |intros s rest H; apply (octal_span_shrinks s rest H)]].
  rewrite normalize_steps.
  assert (D : forall r, consuming r -> forall src,
                (length (ReplaceAll r src []) <= length src)%nat).
  { intros r Hr src. apply ReplaceAllFunc_length; [exact Hr|].
    intros s rest _. simpl. lia. }
  pose proof (D re_concat re_concat_consuming c) as H1.
  pose proof (D re_comment re_comment_consuming (ReplaceAll re_concat c [])) as H2.
  pose proof (ReplaceAllFunc_length re_hex unquoteStr re_hex_consuming
                (fun s rest H => ltac:(destruct (hex_span_shrinks s rest H); lia))
                (ReplaceAll re_comment (ReplaceAll re_concat c []) [])) as H3.
  pose proof (ReplaceAllFunc_length re_octal unquoteStr re_octal_consuming
                (fun s rest H => ltac:(destruct (octal_span_shrinks s rest H); lia))
                (ReplaceAllFunc re_hex
                   (ReplaceAll re_comment (ReplaceAll re_concat c []) []) unquoteStr)) as H4.
  lia.
Qed.

Lemma search_none_first p r s : forall pos,
  Forall (fun b => p b = false) s -> search (Cat (Class p) r) s pos = None.
Proof.
  induction s as [|c s IH]; intros pos HF; simpl.
  - reflexivity.
  - inversion HF as [|? ? Hc HF']; subst. unfold matchAt. simpl. rewrite Hc.
    apply IH, HF'.
Qed.

Lemma ReplaceAllFunc_untouched p r repl src :
  Forall (fun b => p b = false) src ->
  ReplaceAllFunc (Cat (Class p) r) src repl = src.
Proof.
  intros HF. apply ReplaceAllFunc_none. unfold doExecute. rewrite drop_0.
  apply search_none_first, HF.
Qed.

(** X15: content that holds no quote, no slash and no backslash is handed
    to the signatures as it is. *)
Theorem plain_content_is_left_alone (c : bytes) :
  plain c -> normalize normalizers c = c.
Proof.
  intros Hp. rewrite normalize_steps. unfold ReplaceAll.
  assert (H1 : Forall (fun b => quote_class b = false) c)
    by (eapply Forall_impl; [exact Hp | intros b (H & _ & _); exact H]).
  assert (H2 : Forall (fun b => is_byte "/" b = false) c)
    by (eapply Forall_impl; [exact Hp | intros b (_ & H & _); exact H]).
  assert (H3 : Forall (fun b => is_byte "\" b = false) c)
    by (eapply Forall_impl; [exact Hp | intros b (_ & _ & H); exact H]).
  unfold re_concat, re_comment, re_hex, re_octal.
  rewrite (ReplaceAllFunc_untouched _ _ _ c H1).
  rewrite (ReplaceAllFunc_untouched _ _ _ c H2).
  rewrite (ReplaceAllFunc_untouched _ _ _ c H3).
  apply (ReplaceAllFunc_untouched _ _ _ c H3).
Qed.

Lemma plain_content_is_left_alone_witness :
  normalize normalizers (B "<?php echo 1; ?>") = B "<?php echo 1; ?>".
Proof.
  apply plain_content_is_left_alone.
  repeat constructor.
Defined.

Lemma normalize_never_grows_witness :
  (length (unquoteStr (take (length (B "\x41;") - length (B ";")) (B "\x41;"))) <= 1)%nat.
Proof.
  destruct (normalize_never_grows (B "\x41;")) as (_ & H & _).
  apply (H (B "\x41;") (B ";")). reflexivity.
Defined.

Lemma search_skip p r s pre : forall pos,
  Forall (fun b => p b = false) pre ->
  search (Cat (Class p) r) (pre ++ s) pos
  = search (Cat (Class p) r) s (pos + length pre).
Proof.
  induction pre as [|c pre IH]; intros pos HF; simpl.
  - rewrite Nat.add_0_r. reflexivity.
  - inversion HF as [|? ? Hc HF']; subst. unfold matchAt at 1. simpl. rewrite Hc.
    rewrite (IH (S pos) HF'). f_equal. lia.
Qed.

(** The first match of an escape expression behind text without backslash,
    and what the replacement makes of it. *)
Lemma escape_after_plain r pre span post out :
  r = re_hex \/ r = re_octal ->
  Forall (fun b => is_byte "\" b = false) pre ->
  matchAt r (span ++ post) = Some post ->
  unquoteStr span = out ->
  ReplaceAllFunc r (pre ++ span ++ post) unquoteStr
  = pre ++ out ++ ReplaceAllFunc r post unquoteStr.
Proof.
  intros Hr HF Hm Hout.
  assert (Hs : doExecute r (pre ++ span ++ post) 0
               = Some (length pre, length pre + length span)%nat).
  { unfold doExecute. rewrite drop_0.
    assert (E : search r (pre ++ span ++ post) 0 = search r (span ++ post) (0 + length pre))
      by (destruct Hr as [-> | ->]; apply search_skip; exact HF).
    rewrite E. destruct span as [|c span]; simpl.
    - apply (escape_consuming r Hr) in Hm. simpl in Hm. lia.
    - simpl in Hm. rewrite Hm. f_equal. f_equal. rewrite length_app. lia. }
  rewrite (ReplaceAllFunc_step r unquoteStr (escape_consuming r Hr) _ _ _ Hs).
  unfold slice. rewrite take_app_length.
  replace (length pre + length span - length pre)%nat with (length span) by lia.
  rewrite drop_app_length, take_app_length.
  rewrite drop_app_add, drop_app_length, Hout. reflexivity.
Qed.

(** X16: wherever it stands behind text that holds no backslash, [\x] with
    two hex digits is replaced by the byte they denote, and a backslash
    with three octal digits of value 255 at most by the byte of that value;
    the replacement then goes on behind the escape. *)
Theorem valid_escape_decoded_in_place pre post :
  Forall (fun b => is_byte "\" b = false) pre ->
  (forall h1 h2,
      hex_class h1 = true -> hex_class h2 = true ->
      ReplaceAllFunc re_hex (pre ++ "\"%char :: "x"%char :: h1 :: h2 :: post) unquoteStr
      = pre ++ byte_of (16 * hexval h1 + hexval h2)
            :: ReplaceAllFunc re_hex post unquoteStr)
  /\ (forall d1 d2 d3,
        digit_class d1 = true -> digit_class d2 = true -> digit_class d3 = true ->
        octal_ok d1 d2 d3 = true ->
        ReplaceAllFunc re_octal (pre ++ "\"%char :: d1 :: d2 :: d3 :: post) unquoteStr
        = pre ++ byte_of (64 * octval d1 + 8 * octval d2 + octval d3)
              :: ReplaceAllFunc re_octal post unquoteStr).
Proof.
  intros HF. split.
  - intros h1 h2 H1 H2.
    apply (escape_after_plain re_hex pre ["\"%char; "x"%char; h1; h2] post
             [byte_of (16 * hexval h1 + hexval h2)]).
    + left. reflexivity.
    + exact HF.
    + apply matchAt_hex2; [reflexivity | exact H1 | exact H2].
    + rewrite (unquote_hex2 "x" h1 h2 eq_refl H1 H2). reflexivity.
  - intros d1 d2 d3 H1 H2 H3 Hok.
    apply (escape_after_plain re_octal pre ["\"%char; d1; d2; d3] post
             [byte_of (64 * octval d1 + 8 * octval d2 + octval d3)]).
    + right. reflexivity.
    + exact HF.
    + apply matchAt_octal3; assumption.
    + rewrite (unquote_octal3 d1 d2 d3 H1 H2 H3), Hok. reflexivity.
Qed.

Lemma valid_escape_decoded_in_place_witness :
  ReplaceAllFunc re_hex (B "ev" ++ B "\x61l") unquoteStr
  = B "ev" ++ byte_of (16 * hexval "6" + hexval "1")
       :: ReplaceAllFunc re_hex (B "l") unquoteStr.
Proof.
  destruct (valid_escape_decoded_in_place (B "ev") (B "l")) as [H _].
  - repeat constructor.
  - apply (H "6"%char "1"%char); reflexivity.
Defined.

(** The first match of an expression that opens with a byte of class [p],
    behind text that holds no such byte. *)
Lemma first_span_replaced p r repl pre span post :
  Forall (fun b => p b = false) pre ->
  matchAt (Cat (Class p) r) (span ++ post) = Some post ->
  ReplaceAllFunc (Cat (Class p) r) (pre ++ span ++ post) repl
  = pre ++ repl span ++ ReplaceAllFunc (Cat (Class p) r) post repl.
Proof.
  intros HF Hm.
  assert (Hc : consuming (Cat (Class p) r))
    by (intros s rest; apply matchAt_Cat_Class).
  assert (Hs : doExecute (Cat (Class p) r) (pre ++ span ++ post) 0
               = Some (length pre, length pre + length span)%nat).
  { unfold doExecute. rewrite drop_0, (search_skip p r (span ++ post) pre 0 HF).
    destruct span as [|c span]; simpl.
    - apply Hc in Hm. simpl in Hm. lia.
    - simpl in Hm. rewrite Hm. f_equal. f_equal. rewrite length_app. lia. }
  rewrite (ReplaceAllFunc_step _ repl Hc _ _ _ Hs).
  unfold slice. rewrite take_app_length.
  replace (length pre + length span - length pre)%nat with (length span) by lia.
  rewrite drop_app_length, take_app_length.
  rewrite drop_app_add, drop_app_length. reflexivity.
Qed.

Lemma space_not_dot_nor_quote c :
  space_class c = true -> is_byte "." c = false /\ quote_class c = false.
Proof.
  destruct c as [[] [] [] [] [] [] [] []]; vm_compute; intros H;
    first [discriminate H | split; reflexivity].
Qed.

Lemma lazy_spaces {A} ws (k : bytes -> option A) c0 t :
  Forall (fun c => space_class c = true) ws ->
  (forall c s, space_class c = true -> k (c :: s) = None) ->
  space_class c0 = false ->
  star_lazy space_class (ws ++ c0 :: t) k = k (c0 :: t).
Proof.
  intros HF Hk H0. induction HF as [|c ws Hc _ IH]; simpl.
  - rewrite H0. destruct (k (c0 :: t)); reflexivity.
  - rewrite (Hk c _ Hc), Hc. exact IH.
Qed.

(** X17: a quote, a dot and a quote with any white space between them,
    standing behind text without quote, are deleted whole, so that the two
    string literals they join become one. *)
Theorem concatenation_deleted_in_place pre q1 ws1 ws2 q2 post :
  Forall (fun b => quote_class b = false) pre ->
  quote_class q1 = true -> quote_class q2 = true ->
  Forall (fun c => space_class c = true) ws1 ->
  Forall (fun c => space_class c = true) ws2 ->
  ReplaceAll re_concat (pre ++ (q1 :: ws1 ++ "."%char :: ws2 ++ [q2]) ++ post) []
  = pre ++ ReplaceAll re_concat post [].
Proof.
  intros HF H1 H2 Hw1 Hw2. unfold ReplaceAll, re_concat.
  rewrite (first_span_replaced quote_class _ (fun _ => []) pre _ post HF); [reflexivity|].
  assert (Hq2 : space_class q2 = false).
  { destruct (space_class q2) eqn:E; [|reflexivity].
    destruct (space_not_dot_nor_quote q2 E) as [_ Hq]. congruence. }
  unfold matchAt. cbn [run app]. rewrite H1.
  rewrite <- !app_assoc. cbn [app].
  rewrite (lazy_spaces ws1 _ "."%char ((ws2 ++ [q2]) ++ post) Hw1);
    [| |reflexivity].
  - replace (is_byte "." ".") with true by reflexivity.
    rewrite <- app_assoc. cbn [app].
    rewrite (lazy_spaces ws2 _ q2 post Hw2); [| |exact Hq2].
    + rewrite H2. reflexivity.
    + intros c s Hc. destruct (space_not_dot_nor_quote c Hc) as [_ Hq].
      rewrite Hq. reflexivity.
  - intros c s Hc. destruct (space_not_dot_nor_quote c Hc) as [Hd _].
    rewrite Hd. reflexivity.
Qed.

Lemma concatenation_deleted_in_place_witness :
  ReplaceAll re_concat (B "ev" ++ ("'"%char :: B " " ++ "."%char :: B "  " ++ ["034"%char])
                          ++ B "al") []
  = B "ev" ++ ReplaceAll re_concat (B "al") [].
Proof.
  apply concatenation_deleted_in_place; try reflexivity; repeat constructor.
Defined.

Lemma lazy_comment_body body post :
  Forall (fun b => is_byte "/" b = false) body ->
  star_lazy any_class (body ++ "*"%char :: "/"%char :: post)
            (fun s' => run (Cat (Class (is_byte "*")) (Class (is_byte "/"))) s' Some)
  = Some post.
Proof.
  set (k := fun s' : bytes =>
              run (Cat (Class (is_byte "*")) (Class (is_byte "/"))) s' Some).
  induction 1 as [|c body Hc HF IH].
  - reflexivity.
  - cbn [app].
    change (match k (c :: body ++ "*"%char :: "/"%char :: post) with
            | Some x => Some x
            | None => if any_class c
                      then star_lazy any_class (body ++ "*"%char :: "/"%char :: post) k
                      else None
            end = Some post).
    assert (E : k (c :: body ++ "*"%char :: "/"%char :: post) = None).
    { unfold k. cbn [run]. destruct (is_byte "*" c); [|reflexivity].
      destruct HF as [|c' body' Hc' _]; [reflexivity|].
      cbn [app]. rewrite Hc'. reflexivity. }
    rewrite E. exact IH.
Qed.

(** X18: a block comment that stands behind text without slash and holds
    no slash itself is deleted whole, newlines and all, up to its closing
    marker. *)
Theorem comment_deleted_in_place pre body post :
  Forall (fun b => is_byte "/" b = false) pre ->
  Forall (fun b => is_byte "/" b = false) body ->
  ReplaceAll re_comment (pre ++ (B "/*" ++ body ++ B "*/") ++ post) []
  = pre ++ ReplaceAll re_comment post [].
Proof.
  intros HF HB. unfold ReplaceAll, re_comment.
  rewrite (first_span_replaced (is_byte "/") _ (fun _ => []) pre _ post HF);
    [reflexivity|].
  unfold matchAt. rewrite <- !app_assoc. cbn [B list_ascii_of_string app run].
  replace (is_byte "/" "/") with true by reflexivity.
  replace (is_byte "*" "*") with true by reflexivity.
  apply lazy_comment_body, HB.
Qed.

Lemma comment_deleted_in_place_witness :
  ReplaceAll re_comment (B "<?php " ++ (B "/*" ++ B " a * b " ++ B "*/") ++ B "eval(") []
  = B "<?php " ++ ReplaceAll re_comment (B "eval(") [].
Proof.
  apply comment_deleted_in_place; repeat constructor.
Defined.

(** ** Failing escapes through the whole normalization *)

Lemma search_skip_any r P s : forall pos,
  (forall i, (i < length P)%nat -> matchAt r (drop i (P ++ s)) = None) ->
  search r (P ++ s) pos = search r s (pos + length P).
Proof.
  induction P as [|c P IH]; intros pos H; simpl.
  - rewrite Nat.add_0_r. reflexivity.
  - pose proof (H 0%nat ltac:(simpl; lia)) as H0. simpl in H0. rewrite H0.
    rewrite (IH (S pos)); [f_equal; lia|].
    intros i Hi. apply (H (S i)). simpl. lia.
Qed.

(** A prefix in which no match starts is copied, and the replacement is
    that of the rest. *)
Lemma ReplaceAllFunc_prefix r repl P s :
  consuming r ->
  (forall i, (i < length P)%nat -> matchAt r (drop i (P ++ s)) = None) ->
  ReplaceAllFunc r (P ++ s) repl = P ++ ReplaceAllFunc r s repl.
Proof.
  intros Hc HP.
  assert (E : doExecute r (P ++ s) 0 = search r s (length P)).
  { unfold doExecute. rewrite drop_0. apply (search_skip_any r P s 0 HP). }
  rewrite search_shift in E.
  destruct (search r s 0) as [[a b]|] eqn:Es.
  - rewrite (ReplaceAllFunc_step r repl Hc _ _ _ E).
    assert (Es' : doExecute r s 0 = Some (a, b))
      by (unfold doExecute; rewrite drop_0; exact Es).
    rewrite (ReplaceAllFunc_step r repl Hc _ _ _ Es').
    unfold slice. rewrite take_app_add, !drop_app_add.
    replace (length P + b - (length P + a))%nat with (b - a)%nat by lia.
    rewrite <- app_assoc. reflexivity.
  - rewrite (ReplaceAllFunc_none r repl _ E).
    assert (Es' : doExecute r s 0 = None)
      by (unfold doExecute; rewrite drop_0; exact Es).
    rewrite (ReplaceAllFunc_none r repl _ Es'). reflexivity.
Qed.

Lemma class_prefix_nomatch p r P s :
  Forall (fun b => p b = false) P ->
  forall i, (i < length P)%nat -> matchAt (Cat (Class p) r) (drop i (P ++ s)) = None.
Proof.
  intros HF i Hi.
  destruct (lookup_lt_is_Some_2 P i Hi) as [c Hc].
  rewrite drop_app_le by lia. rewrite (drop_S P c i Hc).
  rewrite Forall_lookup in HF. specialize (HF i c Hc).
  unfold matchAt. simpl. rewrite HF. reflexivity.
Qed.

Lemma ReplaceAllFunc_class_prefix p r repl P s :
  Forall (fun b => p b = false) P ->
  ReplaceAllFunc (Cat (Class p) r) (P ++ s) repl
  = P ++ ReplaceAllFunc (Cat (Class p) r) s repl.
Proof.
  intros HF. apply ReplaceAllFunc_prefix.
  - intros x rest. apply matchAt_Cat_Class.
  - apply class_prefix_nomatch, HF.
Qed.

Lemma escape_byte_facts c :
  (is_byte "\" c || x_or_X c || hex_class c || digit_class c) = true ->
  quote_class c = false /\ is_byte "/" c = false.
Proof.
  destruct c as [[] [] [] [] [] [] [] []]; vm_compute; intros H;
    first [discriminate H | split; reflexivity].
Qed.

Lemma body_byte_facts c :
  (x_or_X c || hex_class c || digit_class c) = true -> is_byte "\" c = false.
Proof.
  destruct c as [[] [] [] [] [] [] [] []]; vm_compute; intros H;
    first [discriminate H | reflexivity].
Qed.

Lemma digit_not_x c : digit_class c = true -> x_or_X c = false.
Proof.
  destruct c as [[] [] [] [] [] [] [] []]; vm_compute; intros H;
    first [discriminate H | reflexivity].
Qed.

(** A failing escape is a backslash and a body of letters x and digits. *)
Lemma failing_escape_shape span post :
  failing_escape span post ->
  exists body,
    span = "\"%char :: body
    /\ Forall (fun c => (x_or_X c || hex_class c || digit_class c) = true) body.
Proof.
  intros H. destruct H; eexists; (split; [reflexivity|]);
    repeat constructor;
    repeat match goal with
           | H : _ = true |- _ => rewrite H
           end;
    rewrite ?orb_true_r; reflexivity.
Qed.

Lemma failing_escape_no_quote_no_slash span post :
  failing_escape span post ->
  Forall (fun b => quote_class b = false) span
  /\ Forall (fun b => is_byte "/" b = false) span.
Proof.
  intros H. destruct (failing_escape_shape span post H) as (body & -> & HB).
  split; (constructor; [reflexivity|]);
    (eapply Forall_impl; [exact HB|]); intros c Hc;
    (assert (Hc' : (is_byte "\" c || x_or_X c || hex_class c || digit_class c) = true)
      by (destruct (is_byte "\" c); [reflexivity | exact Hc]));
    destruct (escape_byte_facts c Hc'); assumption.
Qed.

Lemma steps12_prefix P s :
  Forall (fun b => quote_class b = false) P ->
  Forall (fun b => is_byte "/" b = false) P ->
  ReplaceAll re_comment (ReplaceAll re_concat (P ++ s) []) []
  = P ++ ReplaceAll re_comment (ReplaceAll re_concat s []) [].
Proof.
  intros H1 H2. unfold ReplaceAll, re_concat, re_comment.
  rewrite (ReplaceAllFunc_class_prefix quote_class _ (fun _ => []) P s H1).
  apply (ReplaceAllFunc_class_prefix (is_byte "/") _ (fun _ => []) P _ H2).
Qed.

Lemma hex_prefix P s :
  Forall (fun b => is_byte "\" b = false) P ->
  ReplaceAllFunc re_hex (P ++ s) unquoteStr = P ++ ReplaceAllFunc re_hex s unquoteStr.
Proof. apply (ReplaceAllFunc_class_prefix (is_byte "\")). Qed.

Lemma octal_prefix P s :
  Forall (fun b => is_byte "\" b = false) P ->
  ReplaceAllFunc re_octal (P ++ s) unquoteStr = P ++ ReplaceAllFunc re_octal s unquoteStr.
Proof. apply (ReplaceAllFunc_class_prefix (is_byte "\")). Qed.

(** The byte that follows the span is still there after the steps that
    run before the span is looked at. *)
Lemma next_after_steps p post :
  next_plain_not p post ->
  no_more p (ReplaceAll re_comment (ReplaceAll re_concat post []) [])
  /\ no_more p (ReplaceAllFunc re_hex
                  (ReplaceAll re_comment (ReplaceAll re_concat post []) [])
                  unquoteStr).
Proof.
  destruct post as [|c post]; [intros _; split; vm_compute; exact I|].
  intros (Hp & Hq & Hs & Hb).
  change (c :: post) with ([c] ++ post).
  rewrite (steps12_prefix [c] post) by (repeat constructor; assumption).
  rewrite (hex_prefix [c]) by (repeat constructor; assumption).
  split; exact Hp.
Qed.

Lemma plain_parts pre :
  plain pre ->
  Forall (fun b => quote_class b = false) pre
  /\ Forall (fun b => is_byte "/" b = false) pre
  /\ Forall (fun b => is_byte "\" b = false) pre.
Proof.
  intros Hp. repeat split; (eapply Forall_impl; [exact Hp|]);
    intros b (H1 & H2 & H3); assumption.
Qed.

(** A span that the hex step matches and empties. *)
Lemma hex_span_normalized pre span post :
  plain pre ->
  Forall (fun b => quote_class b = false) span ->
  Forall (fun b => is_byte "/" b = false) span ->
  matchAt re_hex (span ++ ReplaceAll re_comment (ReplaceAll re_concat post []) [])
  = Some (ReplaceAll re_comment (ReplaceAll re_concat post []) []) ->
  unquoteStr span = [] ->
  normalize normalizers (pre ++ span ++ post) = pre ++ normalize normalizers post.
Proof.
  intros Hp Hq Hs Hm Hu. destruct (plain_parts pre Hp) as (P1 & P2 & P3).
  rewrite !normalize_steps.
  rewrite app_assoc, (steps12_prefix (pre ++ span) post), <- app_assoc
    by (apply Forall_app; split; assumption).
  rewrite (escape_after_plain re_hex pre span _ [] (or_introl eq_refl) P3 Hm Hu).
  cbn [app]. apply octal_prefix, P3.
Qed.

(** A span of digits: the hex step passes over it, the octal step matches
    and empties it. *)
Lemma octal_span_normalized pre ds post :
  plain pre ->
  ds <> [] -> Forall (fun d => digit_class d = true) ds ->
  matchAt re_octal
    (("\"%char :: ds)
     ++ ReplaceAllFunc re_hex
          (ReplaceAll re_comment (ReplaceAll re_concat post []) []) unquoteStr)
  = Some (ReplaceAllFunc re_hex
            (ReplaceAll re_comment (ReplaceAll re_concat post []) []) unquoteStr) ->
  unquoteStr ("\"%char :: ds) = [] ->
  normalize normalizers (pre ++ ("\"%char :: ds) ++ post)
  = pre ++ normalize normalizers post.
Proof.
  intros Hp Hne Hd Hm Hu. destruct (plain_parts pre Hp) as (P1 & P2 & P3).
  assert (Hbody : Forall (fun c => (x_or_X c || hex_class c || digit_class c) = true) ds)
    by (eapply Forall_impl; [exact Hd | intros c Hc; rewrite Hc; apply orb_true_r]).
  assert (Hq : Forall (fun b => quote_class b = false) ("\"%char :: ds)
               /\ Forall (fun b => is_byte "/" b = false) ("\"%char :: ds)).
  { split; (constructor; [reflexivity|]); (eapply Forall_impl; [exact Hbody|]);
      intros c Hc;
      (assert (Hc' : (is_byte "\" c || x_or_X c || hex_class c || digit_class c) = true)
        by (destruct (is_byte "\" c); [reflexivity | exact Hc]));
      destruct (escape_byte_facts c Hc'); assumption. }
  destruct Hq as [Hq Hs].
  assert (Hbs : Forall (fun b => is_byte "\" b = false) ds)
    by (eapply Forall_impl; [exact Hbody | intros c Hc; apply body_byte_facts, Hc]).
  rewrite !normalize_steps.
  rewrite app_assoc, (steps12_prefix (pre ++ "\"%char :: ds) post), <- app_assoc
    by (apply Forall_app; split; assumption).
  rewrite (hex_prefix pre _ P3).
  rewrite (ReplaceAllFunc_prefix re_hex unquoteStr ("\"%char :: ds) _ re_hex_consuming).
  - rewrite (escape_after_plain re_octal pre ("\"%char :: ds) _ []
               (or_intror eq_refl) P3 Hm Hu).
    reflexivity.
  - intros [|j] Hi.
    + destruct ds as [|d ds']; [congruence|].
      inversion Hd as [|? ? Hd1 _]; subst.
      unfold matchAt, re_hex, Rep12, Quest. cbn -[is_byte either hex_class].
      fold x_or_X. rewrite (digit_not_x d Hd1). reflexivity.
    + cbn [drop app skipn]. simpl in Hi.
      apply (class_prefix_nomatch (is_byte "\") _ ds _ Hbs j). lia.
Qed.

Lemma errs_error s : errs s = true -> exists e, Strconv.UnquoteRune s = Err e.
Proof.
  unfold errs. destruct (Strconv.UnquoteRune s) as [v|e]; [discriminate|].
  intros _. exists e. reflexivity.
Qed.

(** The decoding of every failing escape ends in an error. *)
Lemma failing_escape_errs span post : failing_escape span post -> errs span = true.
Proof.
  intros H. destruct H as [x h post Hx Hh _|h1 h2 post H1 H2|d post Hd _
                          |d1 d2 post H1 H2 _|d1 d2 d3 post H1 H2 H3 Hok].
  - assert (T : forallb (fun x => forallb (fun h =>
                  errs ["\"%char; x; h]) hexdigits) (B "xX") = true)
      by (vm_compute; reflexivity).
    rewrite forallb_forall in T. specialize (T x (x_cases x Hx)).
    rewrite forallb_forall in T. exact (T h (hex_cases h Hh)).
  - assert (T : forallb (fun h1 => forallb (fun h2 =>
                  errs ["\"%char; "X"%char; h1; h2]) hexdigits) hexdigits = true)
      by (vm_compute; reflexivity).
    rewrite forallb_forall in T. specialize (T h1 (hex_cases h1 H1)).
    rewrite forallb_forall in T. exact (T h2 (hex_cases h2 H2)).
  - assert (T : forallb (fun d => errs ["\"%char; d]) digits = true)
      by (vm_compute; reflexivity).
    rewrite forallb_forall in T. exact (T d (digit_cases d Hd)).
  - assert (T : forallb (fun d1 => forallb (fun d2 =>
                  errs ["\"%char; d1; d2]) digits) digits = true)
      by (vm_compute; reflexivity).
    rewrite forallb_forall in T. specialize (T d1 (digit_cases d1 H1)).
    rewrite forallb_forall in T. exact (T d2 (digit_cases d2 H2)).
  - assert (T : forallb (fun d1 => forallb (fun d2 => forallb (fun d3 =>
                  octal_ok d1 d2 d3 || errs ["\"%char; d1; d2; d3])
                  digits) digits) digits = true)
      by (vm_compute; reflexivity).
    rewrite forallb_forall in T. specialize (T d1 (digit_cases d1 H1)).
    rewrite forallb_forall in T. specialize (T d2 (digit_cases d2 H2)).
    rewrite forallb_forall in T. specialize (T d3 (digit_cases d3 H3)).
    rewrite Hok in T. exact T.
Qed.

(** Normalization deletes a failing escape that stands after plain bytes
    and goes on with what follows it. *)
Lemma failing_escape_normalized pre span post :
  plain pre -> failing_escape span post ->
  normalize normalizers (pre ++ span ++ post) = pre ++ normalize normalizers post.
Proof.
  intros Hp H.
  destruct (failing_escape_no_quote_no_slash span post H) as [Hq Hs].
  destruct H as [x h post Hx Hh Hn|h1 h2 post H1 H2|d post Hd Hn
                |d1 d2 post H1 H2 Hn|d1 d2 d3 post H1 H2 H3 Hok].
  - apply hex_span_normalized; try assumption.
    + apply matchAt_hex1; try assumption. apply (next_after_steps _ _ Hn).
    + apply unquote_hex1; assumption.
  - apply hex_span_normalized; try assumption.
    + apply matchAt_hex2; try assumption. reflexivity.
    + exact (unquote_hex2 "X" h1 h2 eq_refl H1 H2).
  - apply octal_span_normalized; try assumption.
    + discriminate.
    + repeat constructor; assumption.
    + apply matchAt_octal1; try assumption. apply (next_after_steps _ _ Hn).
    + apply unquote_octal1; assumption.
  - apply octal_span_normalized; try assumption.
    + discriminate.
    + repeat constructor; assumption.
    + apply matchAt_octal2; try assumption. apply (next_after_steps _ _ Hn).
    + apply unquote_octal2; assumption.
  - apply octal_span_normalized; try assumption.
    + discriminate.
    + repeat constructor; assumption.
    + apply matchAt_octal3; assumption.
    + rewrite (unquote_octal3 d1 d2 d3 H1 H2 H3), Hok. reflexivity.
Qed.


